(** * rtt-fuzzer: the fuzz driver of [rtt-module.js]

    A shallow embedding of the fuzz entry point, its choice helpers [pick]
    and [rnd], and the crash reporter [log_crash], followed by the
    properties of the driver that the specification states.

    The rules module ([RULES]), the fuzzed data provider of the fuzzing
    library, [Math.random] and the process environment are collaborators of
    the driver: they are parameters of the model.  *)

From Stdlib Require Import ZArith List String Ascii Bool Lia.
From Stdlib Require Import DecimalString.
From Stdlib Require Init.Byte DecimalNat.
Import ListNotations.

Set Warnings "-register-all".

Local Open Scope string_scope.
Local Open Scope list_scope.
Local Open Scope Z_scope.

(** ** JavaScript values *)

(** Numbers: the action descriptors and arguments of a rules module are
    integers (piece and space identifiers, flags); [NaN] is kept apart
    because the driver tests for it. *)
Inductive number : Type :=
| NaN
| Num (z : Z).

Inductive value : Type :=
| VUndefined
| VNull
| VBoolean (b : bool)
| VNumber (n : number)
| VString (s : string)
| VArray (elems : list value)
| VObject (props : list (string * value)).

(** What is thrown by the collaborators or by the JavaScript runtime. *)
Inductive thrown : Type :=
| TypeError (msg : string)
| Error (msg : string)
| ThrownValue (v : value).

(** [typeof v === "number"], [typeof v === "boolean"]. *)
Definition typeof_number (v : value) : bool :=
  match v with VNumber _ => true | _ => false end.

Definition typeof_boolean (v : value) : bool :=
  match v with VBoolean _ => true | _ => false end.

(** [v === s] for a string literal [s]. *)
Definition is_string (v : value) (s : string) : bool :=
  match v with VString s' => String.eqb s' s | _ => false end.

(** [v === false] and [v === 0]. *)
Definition is_false (v : value) : bool :=
  match v with VBoolean false => true | _ => false end.

Definition is_zero (v : value) : bool :=
  match v with VNumber (Num 0) => true | _ => false end.

(** *** Objects as ordered property lists

    The list order is the enumeration order of [Object.keys],
    [Object.entries] and [for ... in]. *)
Definition object := list (string * value).

Fixpoint lookup (k : string) (o : object) : option value :=
  match o with
  | [] => None
  | (k', v) :: o' => if String.eqb k' k then Some v else lookup k o'
  end.

(** [k in o] *)
Definition has_key (k : string) (o : object) : bool :=
  match lookup k o with Some _ => true | None => false end.

(** [delete o[k]] *)
Definition delete (k : string) (o : object) : object :=
  filter (fun kv => negb (String.eqb (fst kv) k)) o.

(** [o[k] = v]: an existing property keeps its place, a new one goes last. *)
Definition set (k : string) (v : value) (o : object) : object :=
  if has_key k o
  then map (fun kv => if String.eqb (fst kv) k then (k, v) else kv) o
  else o ++ [(k, v)].

(** [Object.keys(o)] and [Object.entries(o)] *)
Definition keys (o : object) : list string := map fst o.
Definition entries (o : object) : list (string * value) := o.

(** *** Strings of numbers and numbers of strings *)

(** The property key of array index [i]. *)
Definition index_key (i : nat) : string :=
  NilZero.string_of_uint (Nat.to_uint i).

Definition string_of_Z (z : Z) : string :=
  NilZero.string_of_int (Z.to_int z).

Definition chars (s : string) : list value :=
  map (fun c => VString (String c EmptyString)) (list_ascii_of_string s).

Definition join (sep : string) (l : list string) : string :=
  String.concat sep l.

(** [String(v)], as used when a value becomes a property key. *)
Fixpoint ToString (v : value) : string :=
  match v with
  | VUndefined => "undefined"
  | VNull => "null"
  | VBoolean true => "true"
  | VBoolean false => "false"
  | VNumber NaN => "NaN"
  | VNumber (Num z) => string_of_Z z
  | VString s => s
  | VArray l =>
      join "," (map (fun e => match e with
                              | VUndefined | VNull => ""
                              | _ => ToString e
                              end) l)
  | VObject _ => "[object Object]"
  end.

(** [a.length]; [None] is the [TypeError] of a property read on
    [undefined] or [null]. *)
Definition length_prop (a : value) : option value :=
  match a with
  | VUndefined | VNull => None
  | VBoolean _ | VNumber _ => Some VUndefined
  | VString s => Some (VNumber (Num (Z.of_nat (String.length s))))
  | VArray l => Some (VNumber (Num (Z.of_nat (List.length l))))
  | VObject o =>
      Some (match lookup "length" o with Some x => x | None => VUndefined end)
  end.

(** [a[k]] for a property key [k] that is not an array index. *)
Definition prop (a : value) (k : string) : value :=
  match a with
  | VObject o => match lookup k o with Some x => x | None => VUndefined end
  | _ => VUndefined
  end.

(** [a[i]] for an integer [i]. *)
Definition elem (a : value) (i : Z) : value :=
  if i <? 0 then prop a (string_of_Z i)
  else match a with
       | VArray l => nth (Z.to_nat i) l VUndefined
       | VString s => nth (Z.to_nat i) (chars s) VUndefined
       | _ => prop a (string_of_Z i)
       end.

(** *** [isNaN] on property keys

    [isNaN(k)] converts the string [k] to a number and tests the result for
    [NaN].  The conversion accepts, between optional white space, the empty
    string, a signed decimal literal (digits, fraction, exponent,
    [Infinity]) or an unsigned binary, octal or hexadecimal integer. *)
Definition code (c : ascii) : nat := nat_of_ascii c.

Definition is_white_space (c : ascii) : bool :=
  match code c with
  | 9%nat | 10%nat | 11%nat | 12%nat | 13%nat | 32%nat => true
  | _ => false
  end.

Definition in_range (lo hi : nat) (c : ascii) : bool :=
  (Nat.leb lo (code c) && Nat.leb (code c) hi)%bool.

Definition is_digit : ascii -> bool := in_range 48 57.

Definition is_hex_digit (c : ascii) : bool :=
  (is_digit c || in_range 65 70 c || in_range 97 102 c)%bool.

Definition is_octal_digit : ascii -> bool := in_range 48 55.
Definition is_binary_digit : ascii -> bool := in_range 48 49.

Definition is_char (c : ascii) (s : string) : bool :=
  String.eqb (String c EmptyString) s.

Definition is_sign (c : ascii) : bool := (is_char c "+" || is_char c "-")%bool.

Definition nonempty {A : Type} (l : list A) : bool :=
  match l with [] => false | _ :: _ => true end.

Fixpoint skip {A : Type} (p : A -> bool) (l : list A) : list A :=
  match l with
  | x :: l' => if p x then skip p l' else l
  | [] => []
  end.

Definition trim (l : list ascii) : list ascii :=
  rev (skip is_white_space (rev (skip is_white_space l))).

(** The rest of a decimal literal after its digits: nothing, or an exponent. *)
Definition exponent_part (l : list ascii) : bool :=
  match l with
  | [] => true
  | e :: r =>
      if (is_char e "e" || is_char e "E")%bool then
        let ds := match r with
                  | s :: r' => if is_sign s then r' else r
                  | [] => r
                  end in
        (nonempty ds && forallb is_digit ds)%bool
      else false
  end.

Definition unsigned_decimal (l : list ascii) : bool :=
  if String.eqb (string_of_list_ascii l) "Infinity" then true
  else
    let int_part := nonempty l && is_digit (hd "0"%char l) in
    match skip is_digit l with
    | dot :: r =>
        if is_char dot "." then
          let frac_part := nonempty r && is_digit (hd "."%char r) in
          ((int_part || frac_part) && exponent_part (skip is_digit r))%bool
        else (int_part && exponent_part (dot :: r))%bool
    | [] => int_part
    end%bool.

Definition decimal_literal (l : list ascii) : bool :=
  match l with
  | s :: r => if is_sign s then unsigned_decimal r else unsigned_decimal l
  | [] => false
  end.

Definition non_decimal_literal (l : list ascii) : bool :=
  match l with
  | z :: p :: r =>
      (is_char z "0" && nonempty r &&
       (if (is_char p "x" || is_char p "X") then forallb is_hex_digit r
        else if (is_char p "o" || is_char p "O") then forallb is_octal_digit r
        else if (is_char p "b" || is_char p "B") then forallb is_binary_digit r
        else false))%bool
  | _ => false
  end.

Definition isNaN_string (k : string) : bool :=
  match trim (list_ascii_of_string k) with
  | [] => false
  | l => negb (decimal_literal l || non_decimal_literal l)
  end.

(** The keys that [for (const k in a)] visits. *)
Definition for_in_keys (a : value) : list string :=
  match a with
  | VArray l => map index_key (seq 0 (List.length l))
  | VString s => map index_key (seq 0 (String.length s))
  | VObject o => keys o
  | _ => []
  end.

(** ** Collaborators of the driver *)

(** The process environment, as read at module load. *)
Record Config : Type := {
  MAX_STEPS : Z;
  NO_UNDO : bool;
  NO_RESIGN : bool;
  RND : bool
}.

(** The game state of the rules module: the driver reads [state.active] and
    [state.state] and passes the object on. *)
Record GameState : Type := {
  st_active : value;
  st_state : value;
  st_rest : value
}.

(** The view of a role.  [view_actions] is [None] when [view.actions] is
    absent (or otherwise falsy), and the actions object when present. *)
Record View : Type := {
  view_actions : option object;
  view_rest : value
}.

(** The rules module [RULES].  [resign] and [fuzz_log] are optional members;
    [action] and [resign] may throw.  [setup] is always given the empty
    [options] object, which is left out here. *)
Record Rules : Type := {
  scenarios : list value;
  roles : list value;
  setup : Z -> value -> GameState;
  view : GameState -> value -> View;
  action : GameState -> value -> value -> value -> thrown + GameState;
  resign : option (GameState -> value -> thrown + GameState);
  fuzz_log : bool
}.

(** The fuzzed data provider of the fuzzing library, over the input bytes.
    [pickValue] receives the JavaScript value it is called with and may
    throw. *)
Record Provider : Type := {
  fdp : Type;
  FuzzedDataProvider : list Byte.byte -> fdp;
  remainingBytes : fdp -> Z;
  consumeIntegralInRange : fdp -> Z -> Z -> Z * fdp;
  pickValue : fdp -> value -> thrown + (value * fdp)
}.

(** [Math.random]: [random n min max] is the value of
    [Math.floor(Math.random() * (max - min + 1) + min)] when that is the
    call number [n] of [Math.random]. *)
Definition Random : Type := nat -> Z -> Z -> Z.

(** ** What a run leaves behind *)

Record GameSetup : Type := {
  gs_seed : Z;
  gs_scenario : value;
  gs_options : object
}.

(** The console lines of [log_crash]. *)
Inductive line : Type :=
| Blank
| VIEW (v : View)
| STEP (step : Z) (active : value)
| STEP_ACTION (step : Z) (active : value) (action : value) (args : value)
| STATE_dumped.

(** The argument of the [fuzz_log] hook. *)
Record LogContext : Type := {
  lc_state : GameState;
  lc_view : View;
  lc_actions : list string;
  lc_chosen_action : value;
  lc_args : value;
  lc_chosen_arg : value
}.

(** The console, the file [crash-state.json] (absent until written; the
    state stands for its serialisation) and the calls of the hook. *)
Record World : Type := {
  console : list line;
  crash_state_json : option GameState;
  fuzz_log_calls : list LogContext
}.

Definition empty_world : World :=
  {| console := []; crash_state_json := None; fuzz_log_calls := [] |}.

(** The decisions of a run in the order they are taken, and the actions the
    rules module accepted.  This record is not data of the driver: it is
    kept by the model so that properties of a run can speak of them. *)
Inductive event : Type :=
| DrewSeed (seed : Z)
| PickedScenario (scenario : value)
| PickedRole (role : value)
| PickedAction (available : object) (chosen : value)
| PickedArg (arg : value)
| Accepted (chosen : value) (arg : value).

Inductive error : Type :=
| MaxStepsExceededError (message : string)
| NoMoreActionsError (message : string)
| InvalidActionArgument (message : string)
| RulesCrashError (e : thrown)
| Uncaught (e : thrown).

Inductive completion : Type :=
| Return (v : value)
| Throw (e : error).

(** The four error classes the driver defines. *)
Definition classified (e : error) : bool :=
  match e with Uncaught _ => false | _ => true end.

(** The result of a run: how [fuzz] completed, the world it left, its
    decisions, and the game state and step counter when it stopped (no
    state when it stopped before [RULES.setup]). *)
Record Run : Type := {
  outcome : completion;
  run_world : World;
  run_trace : list event;
  run_state : option GameState;
  run_step : Z
}.

Definition minus_one : value := VNumber (Num (-1)).

Definition is_undefined (v : value) : bool :=
  match v with VUndefined => true | _ => false end.

(** [log_crash(game_setup, state, view, step, active, action, args)];
    callers that omit [action] and [args] pass [VUndefined]. *)
Definition log_crash (game_setup : GameSetup) (state : GameState) (view : View)
    (step : Z) (active : value) (action args : value) (w : World) : World :=
  {| console :=
       console w ++
       [ Blank;
         VIEW view;
         (if negb (is_undefined action)
          then STEP_ACTION step active action args
          else STEP step active);
         STATE_dumped ];
     crash_state_json := Some state;
     fuzz_log_calls := fuzz_log_calls w |}.

(** ** The driver *)

(** The [data] object of a run together with the number of calls made to
    [Math.random]. *)
Record Data (P : Provider) : Type := {
  provider : fdp P;
  random_calls : nat
}.
Arguments provider {P} _.
Arguments random_calls {P} _.

(** The variables of the [while] loop. *)
Record Loop (P : Provider) : Type := {
  l_data : Data P;
  l_state : GameState;
  l_step : Z;
  l_world : World;
  l_trace : list event
}.
Arguments l_data {P} _.
Arguments l_state {P} _.
Arguments l_step {P} _.
Arguments l_world {P} _.
Arguments l_trace {P} _.

(** What lines 57-118 settle for one turn: the active role, the view (with
    its actions normalised in place), the picked action, its descriptor and
    the picked argument. *)
Record Choice (P : Provider) : Type := {
  ch_active : value;
  ch_view : View;
  ch_actions : object;
  ch_action : value;
  ch_args : value;
  ch_arg : value;
  ch_data : Data P;
  ch_trace : list event
}.
Arguments ch_active {P} _.
Arguments ch_view {P} _.
Arguments ch_actions {P} _.
Arguments ch_action {P} _.
Arguments ch_args {P} _.
Arguments ch_arg {P} _.
Arguments ch_data {P} _.
Arguments ch_trace {P} _.

Inductive step_result (A : Type) : Type :=
| Next (a : A)
| Stop (r : Run).
Arguments Next {A} _.
Arguments Stop {A} _.

Section Driver.

Variable cfg : Config.
Variable P : Provider.
Variable RULES : Rules.
Variable random : Random.

Definition with_provider (data : Data P) (p : fdp P) : Data P :=
  {| provider := p; random_calls := random_calls data |}.

Definition next_random (data : Data P) : Data P :=
  {| provider := provider data; random_calls := S (random_calls data) |}.

Definition rnd (data : Data P) (min max : Z) : Z * Data P :=
  if RND cfg then
    (random (random_calls data) min max, next_random data)
  else
    let (x, p) := consumeIntegralInRange P (provider data) min max in
    (x, with_provider data p).

(** In random mode [a.length] is read and [a[x-1]] returned.  A length that
    is not a number makes [x] the number [NaN], and [a[NaN]] is the property
    named "NaN". *)
Definition pick (data : Data P) (a : value) : thrown + (value * Data P) :=
  if RND cfg then
    match length_prop a with
    | None => inl (TypeError ("Cannot read properties of " ++ ToString a))
    | Some (VNumber (Num n)) =>
        let (x, data') := rnd data 1 n in
        inr (elem a (x - 1), data')
    | Some _ => inr (prop a "NaN", next_random data)
    end
  else
    match pickValue P (provider data) a with
    | inl e => inl e
    | inr (v, p) => inr (v, with_provider data p)
    end.

(** Lines 94-98: the loop over the entries that [Object.entries] returned,
    deleting from [actions] itself. *)
Fixpoint remove_disabled (es : list (string * value)) (actions : object)
  : thrown + object :=
  match es with
  | [] => inr actions
  | (key, value) :: es' =>
      if (is_false value || is_zero value)%bool then
        remove_disabled es' (delete key actions)
      else
        match length_prop value with
        | None => inl (TypeError ("Cannot read properties of " ++ ToString value))
        | Some len =>
            if is_zero len then remove_disabled es' (delete key actions)
            else remove_disabled es' actions
        end
  end.

(** Lines 84-98, on the object that [view.actions] refers to. *)
Definition normalize (actions : object) : thrown + object :=
  let actions :=
    if (NO_UNDO cfg && has_key "undo" actions)%bool
    then delete "undo" actions else actions in
  let actions :=
    match resign RULES with
    | Some _ => if negb (NO_RESIGN cfg)
                then set "_resign" (VNumber (Num 1)) actions else actions
    | None => actions
    end in
  remove_disabled (entries actions) actions.

(** [actions] is [view.actions] itself, not a copy: after the
    normalisation the view holds the normalised actions. *)
Definition with_actions (view : View) (actions : object) : View :=
  {| view_actions := Some actions; view_rest := view_rest view |}.

Definition finish (c : completion) (state : GameState) (step : Z)
    (w : World) (tr : list event) : Run :=
  {| outcome := c; run_world := w; run_trace := tr;
     run_state := Some state; run_step := step |}.

(** Line 108: the descriptor is a pool of arguments. *)
Definition is_pool (args : value) : bool :=
  (negb (is_undefined args)
   && negb (match args with VNull => true | _ => false end)
   && negb (typeof_number args) && negb (typeof_boolean args))%bool.

(** Lines 57-118 of one turn of the loop. *)
Definition decide (game_setup : GameSetup) (l : Loop P) : step_result (Choice P) :=
  let data := l_data l in
  let state := l_state l in
  let step := l_step l in
  let w := l_world l in
  let tr := l_trace l in
  (* 57-60 *)
  if (negb (RND cfg) && (remainingBytes P (provider data) <? 16))%bool then
    Stop (finish (Return minus_one) state step w tr)
  else
    (* 61-65 *)
    let active := st_active state in
    match (if (is_string active "Both" || is_string active "All")%bool
           then match pick data (VArray (roles RULES)) with
                | inl e => inl e
                | inr (v, data') => inr (v, data', tr ++ [PickedRole v])
                end
           else inr (active, data, tr)) with
    | inl e => Stop (finish (Throw (Uncaught e)) state step w tr)
    | inr (active, data, tr) =>
    (* 67 *)
    let view := view RULES state active in
    (* 69-72 *)
    if step >? MAX_STEPS cfg then
      Stop (finish
              (Throw (MaxStepsExceededError
                        ("Maximum step count (MAX_STEPS="
                           ++ string_of_Z (MAX_STEPS cfg) ++ ") exceeded")))
              state step
              (log_crash game_setup state view step active VUndefined VUndefined w)
              tr)
    (* 74-76: [break], and the function returns [undefined] *)
    else if is_string (st_state state) "game_over" then
      Stop (finish (Return VUndefined) state step w tr)
    else
    (* 78-81 *)
    match view_actions view with
    | None =>
        Stop (finish (Throw (NoMoreActionsError "No actions defined"))
                state step
                (log_crash game_setup state view step active VUndefined VUndefined w)
                tr)
    | Some actions =>
    (* 83-98: [actions] is [view.actions] *)
    match normalize actions with
    | inl e => Stop (finish (Throw (Uncaught e)) state step w tr)
    | inr actions =>
    let view := with_actions view actions in
    (* 100-103 *)
    if (List.length (keys actions) =? 0)%nat then
      Stop (finish
              (Throw (NoMoreActionsError "No more actions to take (besides undo)"))
              state step
              (log_crash game_setup state view step active VUndefined VUndefined w)
              tr)
    else
    (* 104-106 *)
    match pick data (VArray (map VString (keys actions))) with
    | inl e => Stop (finish (Throw (Uncaught e)) state step w tr)
    | inr (action, data) =>
    let tr := tr ++ [PickedAction actions action] in
    let args := prop (VObject actions) (ToString action) in
    (* 108-118 *)
    if is_pool args then
      if existsb isNaN_string (for_in_keys args) then
        Stop (finish
                (Throw (InvalidActionArgument
                          ("Action '" ++ ToString action
                             ++ "' argument has NaN value")))
                state step
                (log_crash game_setup state view step active VUndefined VUndefined w)
                tr)
      else
        match pick data args with
        | inl e => Stop (finish (Throw (Uncaught e)) state step w tr)
        | inr (arg, data) =>
            Next {| ch_active := active; ch_view := view; ch_actions := actions;
                    ch_action := action; ch_args := args; ch_arg := arg;
                    ch_data := data; ch_trace := tr ++ [PickedArg arg] |}
        end
    else
      Next {| ch_active := active; ch_view := view; ch_actions := actions;
              ch_action := action; ch_args := args; ch_arg := VNull;
              ch_data := data; ch_trace := tr |}
    end end end end.

(** Lines 121-129: the optional hook is called with the context of the
    turn. *)
Definition call_fuzz_log (state : GameState) (c : Choice P) (w : World) : World :=
  if fuzz_log RULES then
    {| console := console w;
       crash_state_json := crash_state_json w;
       fuzz_log_calls :=
         fuzz_log_calls w ++
         [ {| lc_state := state; lc_view := ch_view c;
              lc_actions := keys (ch_actions c);
              lc_chosen_action := ch_action c;
              lc_args := ch_args c; lc_chosen_arg := ch_arg c |} ] |}
  else w.

(** Lines 132-136, inside the [try].  Calling a [RULES.resign] that is not
    there throws a [TypeError], inside the [try] as well. *)
Definition apply_action (state : GameState) (c : Choice P) : thrown + GameState :=
  if negb (is_string (ch_action c) "_resign") then
    action RULES state (ch_active c) (ch_action c) (ch_arg c)
  else
    match resign RULES with
    | Some resign => resign state (ch_active c)
    | None => inl (TypeError "RULES.resign is not a function")
    end.

(** [new RulesCrashError(e, e.stack)]: reading [e.stack] of a thrown
    [undefined] or [null] is itself a [TypeError]. *)
Definition rules_crash (e : thrown) : error :=
  match e with
  | ThrownValue VUndefined | ThrownValue VNull =>
      Uncaught (TypeError "Cannot read properties of undefined (reading 'stack')")
  | _ => RulesCrashError e
  end.

(** One turn of the [while] loop, lines 57-141. *)
Definition turn (game_setup : GameSetup) (l : Loop P) : step_result (Loop P) :=
  match decide game_setup l with
  | Stop r => Stop r
  | Next c =>
      let state := l_state l in
      let step := l_step l in
      let w := call_fuzz_log state c (l_world l) in
      match apply_action state c with
      | inl e =>
          Stop (finish (Throw (rules_crash e)) state step
                  (log_crash game_setup state (ch_view c) step (ch_active c)
                     (ch_action c) (ch_arg c) w)
                  (ch_trace c))
      | inr state' =>
          Next {| l_data := ch_data c; l_state := state'; l_step := step + 1;
                  l_world := w;
                  l_trace := ch_trace c ++ [Accepted (ch_action c) (ch_arg c)] |}
      end
  end.

(** The [while (true)] loop, with a bound on the number of turns. *)
Fixpoint loop (fuel : nat) (game_setup : GameSetup) (l : Loop P) : option Run :=
  match fuel with
  | O => None
  | S fuel' =>
      match turn game_setup l with
      | Stop r => Some r
      | Next l' => loop fuel' game_setup l'
      end
  end.

(** The loop variables after [n] turns that all went round the loop. *)
Fixpoint turns (n : nat) (game_setup : GameSetup) (l : Loop P) : option (Loop P) :=
  match n with
  | O => Some l
  | S n' =>
      match turn game_setup l with
      | Stop _ => None
      | Next l' => turns n' game_setup l'
      end
  end.

(** Lines 36-55: up to the entry of the loop. *)
Definition start (fuzzerInputData : list Byte.byte)
  : step_result (GameSetup * Loop P) :=
  let data := {| provider := FuzzedDataProvider P fuzzerInputData;
                 random_calls := O |} in
  if (negb (RND cfg) && (remainingBytes P (provider data) <? 16))%bool then
    Stop {| outcome := Return minus_one; run_world := empty_world;
            run_trace := []; run_state := None; run_step := 0 |}
  else
    let (seed, data) := rnd data 1 (2 ^ 35 - 31) in
    match pick data (VArray (scenarios RULES)) with
    | inl e =>
        Stop {| outcome := Throw (Uncaught e); run_world := empty_world;
                run_trace := [DrewSeed seed]; run_state := None; run_step := 0 |}
    | inr (scenario, data) =>
        let options : object := [] in
        let game_setup := {| gs_seed := seed; gs_scenario := scenario;
                             gs_options := options |} in
        let state := setup RULES seed scenario in
        Next (game_setup,
              {| l_data := data; l_state := state; l_step := 0;
                 l_world := empty_world;
                 l_trace := [DrewSeed seed; PickedScenario scenario] |})
    end.

(** No run makes more turns than this: the step counter is the number of
    turns made, and a turn that finds it above [MAX_STEPS] stops. *)
Definition max_turns : nat := S (Z.to_nat (MAX_STEPS cfg + 1)).

Definition fuzz_within (fuel : nat) (fuzzerInputData : list Byte.byte) : option Run :=
  match start fuzzerInputData with
  | Stop r => Some r
  | Next (game_setup, l) => loop fuel game_setup l
  end.

(** [module.exports.fuzz] *)
Definition fuzz (fuzzerInputData : list Byte.byte) : option Run :=
  fuzz_within max_turns fuzzerInputData.

End Driver.

(** ** Reading a run *)

(** The number of accepted actions in a record of events. *)
Fixpoint accepted (tr : list event) : Z :=
  match tr with
  | [] => 0
  | Accepted _ _ :: tr' => 1 + accepted tr'
  | _ :: tr' => accepted tr'
  end.

(** The step index that a console line shows. *)
Definition line_step (ln : line) : option Z :=
  match ln with
  | STEP step _ | STEP_ACTION step _ _ _ => Some step
  | _ => None
  end.

(** The active role that a console line shows. *)
Definition line_active (ln : line) : option value :=
  match ln with
  | STEP _ active | STEP_ACTION _ active _ _ => Some active
  | _ => None
  end.

(** A thrown value that has a [stack] to read. *)
Definition has_stack (e : thrown) : bool :=
  match e with
  | ThrownValue VUndefined | ThrownValue VNull => false
  | _ => true
  end.

(** ** What the driver assumes of its collaborators *)

(** The provider starts with all the input bytes remaining, and
    [pickValue] on a non-empty array returns one of its elements. *)
Record ProviderOK (P : Provider) : Prop := {
  remaining_at_start :
    forall input,
      remainingBytes P (FuzzedDataProvider P input) = Z.of_nat (List.length input);
  pickValue_array :
    forall d l, l <> [] ->
      exists v d', pickValue P d (VArray l) = inr (v, d') /\ In v l
}.

(** [Math.floor(Math.random() * (max - min + 1) + min)] lies between [min]
    and [max]. *)
Definition RandomOK (random : Random) : Prop :=
  forall n min max, min <= max -> min <= random n min max <= max.

(** A descriptor that line 95 takes for a disabled action. *)
Definition disabled (v : value) : bool :=
  (is_false v || is_zero v
   || match length_prop v with Some len => is_zero len | None => false end)%bool.

(** Whether an entry of [actions] outlives the loop over the entries [es]:
    no entry of [es] of the same key is disabled. *)
Definition kept (es : list (string * value)) (kv : string * value) : bool :=
  negb (existsb (fun e => String.eqb (fst e) (fst kv) && disabled (snd e)) es)%bool.

(** A descriptor that is not [false], not [0] and not an empty sequence. *)
Definition enabled (v : value) : Prop :=
  v <> VBoolean false /\ v <> VNumber (Num 0) /\
  v <> VArray [] /\ v <> VString "".

(** Nothing was dumped. *)
Definition clean (w : World) : Prop :=
  console w = [] /\ crash_state_json w = None.

(** The world after one call of [log_crash] for [state], [step] and
    [active], with the view [v] on the console. *)
Definition dumped (w : World) (state : GameState) (step : Z) (active : value)
    (v : View) : Prop :=
  exists ln,
    console w = [Blank; VIEW v; ln; STATE_dumped] /\
    line_step ln = Some step /\ line_active ln = Some active /\
    crash_state_json w = Some state.

(** What is to hold of a picked action: it was picked from a normalised
    set of actions, it names one of them, and no descriptor under that name
    is disabled. *)
Definition good_pick (cfg : Config) (RULES : Rules) (available : object)
    (chosen : value) : Prop :=
  (exists actions0, normalize cfg RULES actions0 = inr available) /\
  exists k, chosen = VString k /\ In k (keys available) /\
            forall v, In (k, v) available -> enabled v.

Definition good_event (cfg : Config) (RULES : Rules) (e : event) : Prop :=
  match e with
  | PickedAction available chosen => good_pick cfg RULES available chosen
  | _ => True
  end.

(** The view as normalisation leaves it: the view of the rules module with
    its actions replaced by the normalised ones. *)
Definition normalized_view (cfg : Config) (RULES : Rules) (state : GameState)
    (active : value) (v : View) : Prop :=
  exists actions0 actions,
    view_actions (view RULES state active) = Some actions0 /\
    normalize cfg RULES actions0 = inr actions /\
    v = with_actions (view RULES state active) actions.

(** How a turn can stop, and what it then leaves: without a dump on a
    return or an error from outside the driver's own checks; with a dump of
    the view of the rules module on the two checks before normalisation;
    with a dump of the normalised view on the checks after it and on a
    failed application. *)
Definition stopped (cfg : Config) (RULES : Rules) (state : GameState) (step : Z)
    (w : World) (r : Run) : Prop :=
  (console (run_world r) = console w /\
   crash_state_json (run_world r) = crash_state_json w /\
   ((exists v, outcome r = Return v) \/ (exists e, outcome r = Throw (Uncaught e))))
  \/
  (exists active v,
      dumped (run_world r) state step active v /\
      ((v = view RULES state active /\
        ((exists m, outcome r = Throw (MaxStepsExceededError m)) \/
         outcome r = Throw (NoMoreActionsError "No actions defined")))
       \/
       (normalized_view cfg RULES state active v /\
        (outcome r = Throw (NoMoreActionsError "No more actions to take (besides undo)") \/
         (exists m, outcome r = Throw (InvalidActionArgument m)) \/
         (exists e, outcome r = Throw (rules_crash e)))))).

(** Every view on the console is the view that the rules module returns
    for the dumped state and some role. *)
Definition dumps_show_engine_view (RULES : Rules) (r : Run) : Prop :=
  forall state v,
    crash_state_json (run_world r) = Some state ->
    In (VIEW v) (console (run_world r)) ->
    exists active, v = view RULES state active.

(** ** A provider and rules modules to run the driver on *)

(** A provider over the list of the bytes not yet consumed, after the
    fuzzing library: an integer in a range is read off the end of the
    buffer, from as many bytes as the range needs (or as are left), the
    first of them the least significant, and reduced into the range;
    [pickValue] picks the index so and throws when it is given no array. *)
Module ByteProvider.

(** The number that bytes denote, least significant byte first. *)
Fixpoint little_endian (bytes : list Byte.byte) : Z :=
  match bytes with
  | [] => 0
  | b :: bytes' => Z.of_N (Byte.to_N b) + 256 * little_endian bytes'
  end.

Definition bytes_for (range : Z) : nat := Z.to_nat (Z.log2 range / 8 + 1).

Definition consume (n : nat) (bytes : list Byte.byte) : Z * list Byte.byte :=
  let kept := (List.length bytes - n)%nat in
  (little_endian (skipn kept bytes), firstn kept bytes).

Definition consume_integral (bytes : list Byte.byte) (min max : Z)
  : Z * list Byte.byte :=
  if max <=? min then (min, bytes)
  else
    let (raw, bytes') := consume (bytes_for (max - min)) bytes in
    (min + raw mod (max - min + 1), bytes').

Definition pickFrom (bytes : list Byte.byte) (l : list value)
  : thrown + (value * list Byte.byte) :=
  match l with
  | [] => inl (Error "array is empty")
  | _ :: _ =>
      let (i, bytes') :=
        consume_integral bytes 0 (Z.of_nat (List.length l) - 1) in
      inr (nth (Z.to_nat i) l VUndefined, bytes')
  end.

Definition pick_value (bytes : list Byte.byte) (a : value)
  : thrown + (value * list Byte.byte) :=
  match a with
  | VArray l => pickFrom bytes l
  | VString s => pickFrom bytes (chars s)
  | VUndefined | VNull =>
      inl (TypeError ("Cannot read properties of " ++ ToString a))
  | _ => inl (Error "RangeError")
  end.

Definition provider : Provider :=
  {| fdp := list Byte.byte;
     FuzzedDataProvider := fun input => input;
     remainingBytes := fun bytes => Z.of_nat (List.length bytes);
     consumeIntegralInRange := consume_integral;
     pickValue := pick_value |}.

End ByteProvider.

(** A [Math.random] that always returns 0: every draw is the minimum. *)
Definition lowest : Random := fun _ min _ => min.

(** A [Math.random] that always returns its largest value. *)
Definition highest : Random := fun _ _ max => max.

Definition zeros (n : nat) : list Byte.byte := repeat Byte.x00 n.

Definition default_config : Config :=
  {| MAX_STEPS := 2048; NO_UNDO := false; NO_RESIGN := false; RND := false |}.

(** A one-player game that counts its accepted actions in [st_rest] and is
    over after [limit] of them.  Every view offers [offered]; applying an
    action throws when the count is [crash_at]. *)
Module Counting.

Definition count (state : GameState) : Z :=
  match st_rest state with VNumber (Num n) => n | _ => 0 end.

Definition at_count (limit n : Z) : GameState :=
  {| st_active := VString "Red";
     st_state := VString (if limit <=? n then "game_over" else "play");
     st_rest := VNumber (Num n) |}.

Definition advance (limit : Z) (crash_at : option Z) (state : GameState)
  : thrown + GameState :=
  match crash_at with
  | Some n => if count state =? n then inl (Error "illegal move")
              else inr (at_count limit (count state + 1))
  | None => inr (at_count limit (count state + 1))
  end.

Definition rules (limit : Z) (crash_at : option Z) (offered : object)
    (with_resign : bool) : Rules :=
  {| scenarios := [VString "Standard"];
     roles := [VString "Red"; VString "Blue"];
     setup := fun _ _ => at_count limit 0;
     view := fun state _ =>
               {| view_actions := Some offered; view_rest := st_rest state |};
     action := fun state _ _ _ => advance limit crash_at state;
     resign := if with_resign
               then Some (fun state _ => inr (at_count limit limit))
               else None;
     fuzz_log := false |}.

End Counting.

(** The games that the driver is run on below. *)
Module Games.

(** Three moves to the end; [undo] is shown disabled; resigning is possible. *)
Definition plain : Rules :=
  Counting.rules 3 None
    [("next", VNumber (Num 1)); ("undo", VNumber (Num 0))] true.

(** The only action has the descriptor [null]. *)
Definition null_descriptor : Rules :=
  Counting.rules 3 None [("pass", VNull)] false.

(** The only action has an argument pool whose only entry is [NaN]; the
    game is over after one move. *)
Definition nan_pool : Rules :=
  Counting.rules 1 None [("move", VArray [VNumber NaN])] false.

(** The only action is disabled. *)
Definition all_disabled : Rules :=
  Counting.rules 3 None [("pass", VNumber (Num 0))] false.

(** The third application of an action throws. *)
Definition crashing : Rules :=
  Counting.rules 5 (Some 2) [("next", VNumber (Num 1))] false.

(** The game is over as it is set up. *)
Definition finished : Rules :=
  Counting.rules 0 None [("next", VNumber (Num 1))] false.

(** Two actions to choose from, one move to the end. *)
Definition two_moves : Rules :=
  Counting.rules 1 None
    [("left", VNumber (Num 1)); ("right", VNumber (Num 1))] false.

End Games.

Definition random_config : Config :=
  {| MAX_STEPS := 2048; NO_UNDO := false; NO_RESIGN := false; RND := true |}.

Definition negative_bound_config : Config :=
  {| MAX_STEPS := -1; NO_UNDO := false; NO_RESIGN := false; RND := false |}.

(** ** Loading the module: lines 6-17 *)

(** [process.env]: the variables that are set, each with its string. *)
Definition Env : Type := string -> option string.

(** The value of a digit in radix 16 and below. *)
Definition digit_value (c : ascii) : option Z :=
  if is_digit c then Some (Z.of_nat (code c) - 48)
  else if in_range 97 102 c then Some (Z.of_nat (code c) - 87)
  else if in_range 65 70 c then Some (Z.of_nat (code c) - 55)
  else None.

(** The number that the longest prefix of radix digits denotes, taken up
    after [acc]; [None] when there is no digit and no [acc]. *)
Fixpoint digits_prefix (radix : Z) (l : list ascii) (acc : option Z) : option Z :=
  match l with
  | [] => acc
  | c :: l' =>
      match digit_value c with
      | Some d =>
          if d <? radix then
            digits_prefix radix l'
              (Some (match acc with Some a => a * radix + d | None => d end))
          else acc
      | None => acc
      end
  end.

(** [parseInt(v)] without a radix, for the value of an environment
    variable ([None]: the variable is not set, and [parseInt] is given
    [undefined]).  The result [None] is [NaN].  Leading white space is
    skipped, a sign is read, the prefix [0x] selects radix 16, and the
    digits up to the first character that is none are the number.  Numbers
    are integers here whatever their size, where JavaScript rounds above
    2^53, and white space is that of ASCII. *)
Definition parseInt (v : option string) : option Z :=
  let input := match v with Some s => s | None => "undefined" end in
  let l := skip is_white_space (list_ascii_of_string input) in
  let (negative, l) :=
    match l with
    | s :: l' => if is_sign s then (is_char s "-", l') else (false, l)
    | [] => (false, l)
    end in
  let (radix, l) :=
    match l with
    | z :: x :: l' =>
        if (is_char z "0" && (is_char x "x" || is_char x "X"))%bool
        then (16, l') else (10, l)
    | _ => (10, l)
    end in
  match digits_prefix radix l None with
  | Some n => Some (if negative then - n else n)
  | None => None
  end.

(** [v === 'true'] for the value of an environment variable. *)
Definition is_true (v : option string) : bool :=
  match v with Some s => String.eqb s "true" | None => false end.

Definition show_bool (b : bool) : string := if b then "true" else "false".

(** What loading the module does before [RULES] is required: the constants
    of lines 6-10, the two lines of lines 12-13 on the console, and the
    error of line 15 when the rules file is not there ([existsSync] is
    [fs.existsSync]).  [x || y] is [y] when [x] is the empty string, 0 or
    [NaN]. *)
Definition load (env : Env) (existsSync : string -> bool)
  : list string * (thrown + string * Config) :=
  let RULES_JS_FILE :=
    match env "RTT_RULES" with
    | Some "" | None => "rules.js"
    | Some file => file
    end in
  let MAX_STEPS :=
    match parseInt (env "MAX_STEPS") with
    | Some 0 | None => 2048
    | Some n => n
    end in
  let NO_UNDO := is_true (env "NO_UNDO") in
  let NO_RESIGN := is_true (env "NO_RESIGN") in
  let RND := is_true (env "RND") in
  ([ "Loading rtt-fuzzer RTT_RULES='" ++ RULES_JS_FILE ++ "' MAX_STEPS="
       ++ string_of_Z MAX_STEPS;
     "RANDOM='" ++ show_bool RND ++ "' NO_UNDO='" ++ show_bool NO_UNDO
       ++ "' NO_RESIGN='" ++ show_bool NO_RESIGN ++ "'" ]%string,
   if negb (existsSync RULES_JS_FILE) then
     inl (Error "rules.js not found, specify via RTT_RULES environment variable.")
   else
     inr (RULES_JS_FILE,
          {| MAX_STEPS := MAX_STEPS; NO_UNDO := NO_UNDO;
             NO_RESIGN := NO_RESIGN; RND := RND |})).

(** The configuration that [load] yields when the rules file is there. *)
Definition loaded_config (env : Env) : Config :=
  match snd (load env (fun _ => true)) with
  | inr (_, cfg) => cfg
  | inl _ => default_config
  end.

(** An environment with the given variables set. *)
Fixpoint env_of (vars : list (string * string)) : Env :=
  fun name =>
    match vars with
    | [] => None
    | (n, v) :: vars' => if String.eqb n name then Some v else env_of vars' name
    end.

(** [undefined] or [null]: the values of which no property can be read. *)
Definition is_nullish (v : value) : bool :=
  match v with VUndefined | VNull => true | _ => false end.

(** What lines 84-90 leave of the entry [(k, v)] of the actions of a view:
    [undo] is taken out when [NO_UNDO] is set, and [_resign] is overwritten
    when resigning is offered. *)
Definition examined (cfg : Config) (RULES : Rules) (k : string) : Prop :=
  (NO_UNDO cfg = true -> k <> "undo") /\
  (NO_RESIGN cfg = false -> resign RULES <> None -> k <> "_resign").

(** The loop variables with another provider in the place of theirs. *)
Definition reprovide {P : Provider} (p : fdp P) (l : Loop P) : Loop P :=
  {| l_data := {| provider := p; random_calls := random_calls (l_data l) |};
     l_state := l_state l; l_step := l_step l;
     l_world := l_world l; l_trace := l_trace l |}.

Definition reprovide_choice {P : Provider} (p : fdp P) (c : Choice P) : Choice P :=
  {| ch_active := ch_active c; ch_view := ch_view c; ch_actions := ch_actions c;
     ch_action := ch_action c; ch_args := ch_args c; ch_arg := ch_arg c;
     ch_data := {| provider := p; random_calls := random_calls (ch_data c) |};
     ch_trace := ch_trace c |}.

(** An event other than the acceptance of an action. *)
Definition is_decision (e : event) : Prop :=
  match e with Accepted _ _ => False | _ => True end.

(** The argument that lines 122-129 give to the hook in a turn: the state
    before the action is applied and what the turn has settled. *)
Definition hook_context {P : Provider} (state : GameState) (c : Choice P)
  : LogContext :=
  {| lc_state := state; lc_view := ch_view c;
     lc_actions := keys (ch_actions c);
     lc_chosen_action := ch_action c;
     lc_args := ch_args c; lc_chosen_arg := ch_arg c |}.

(** A run that ended in the [catch] of lines 137-140: the error is the one
    made there and [crash-state.json] is written. *)
Definition failed_application (r : Run) : Prop :=
  (exists e, outcome r = Throw (rules_crash e)) /\
  crash_state_json (run_world r) <> None.

(** More games to run the driver on. *)
Module MoreGames.

(** The views have no [actions]. *)
Definition without_actions : Rules :=
  {| scenarios := [VString "Standard"];
     roles := [VString "Red"; VString "Blue"];
     setup := fun _ _ => Counting.at_count 3 0;
     view := fun state _ => {| view_actions := None; view_rest := st_rest state |};
     action := fun state _ _ _ => Counting.advance 3 None state;
     resign := None;
     fuzz_log := false |}.

(** The only action has an object with a named key for its pool. *)
Definition named_pool : Rules :=
  Counting.rules 3 None [("next", VObject [("a", VNumber (Num 1))])] false.

(** The view itself offers [_resign]; there is no [RULES.resign]. *)
Definition offers_resign : Rules :=
  Counting.rules 3 None [("_resign", VNumber (Num 1))] false.

(** The view offers [undo] first. *)
Definition offers_undo : Rules :=
  Counting.rules 2 None
    [("undo", VNumber (Num 1)); ("next", VNumber (Num 1))] false.

(** Two moves to the end, with a [fuzz_log]. *)
Definition hooked : Rules :=
  {| scenarios := [VString "Standard"];
     roles := [VString "Red"; VString "Blue"];
     setup := fun _ _ => Counting.at_count 2 0;
     view := fun state _ =>
               {| view_actions := Some [("next", VNumber (Num 1))];
                  view_rest := st_rest state |};
     action := fun state _ _ _ => Counting.advance 2 None state;
     resign := None;
     fuzz_log := true |}.

End MoreGames.

Definition no_undo_config : Config :=
  {| MAX_STEPS := 2048; NO_UNDO := true; NO_RESIGN := false; RND := false |}.

(** * Properties *)

(** ** Tactics *)

(** Split on the scrutinee of the first [match] or [if] of a hypothesis or
    of the goal. *)
Ltac split_match_in H :=
  match type of H with
  | context [match ?x with _ => _ end] =>
      lazymatch x with
      | context [match _ with _ => _ end] => fail
      | _ => destruct x eqn:?
      end
  end.

Ltac split_match_goal :=
  match goal with
  | |- context [match ?x with _ => _ end] =>
      lazymatch x with
      | context [match _ with _ => _ end] => fail
      | _ => destruct x eqn:?
      end
  end.

Ltac inv H := inversion H; subst; clear H.

(** ** Lists and objects *)

Lemma filter_filter {A : Type} (f g : A -> bool) (l : list A) :
  filter f (filter g l) = filter (fun x => g x && f x)%bool l.
Proof.
  induction l as [|x l IH]; simpl; [reflexivity|].
  destruct (g x); simpl; [destruct (f x)|]; now rewrite IH.
Qed.

Lemma accepted_app (tr1 tr2 : list event) :
  accepted (tr1 ++ tr2) = accepted tr1 + accepted tr2.
Proof.
  induction tr1 as [|e tr1 IH]; [reflexivity|].
  destruct e; cbn [accepted app]; rewrite IH; lia.
Qed.

Lemma accepted_nonneg (tr : list event) : 0 <= accepted tr.
Proof. induction tr as [|e tr IH]; [simpl; lia|destruct e; cbn [accepted]; lia]. Qed.

(** [delete] and [set] *)

Lemma in_delete k kv (o : object) :
  In kv (delete k o) <-> In kv o /\ fst kv <> k.
Proof.
  unfold delete. rewrite filter_In, negb_true_iff.
  split; intros [H1 H2]; split; auto.
  - intros Heq. rewrite Heq, String.eqb_refl in H2. discriminate.
  - now apply String.eqb_neq.
Qed.

Lemma has_key_in k (o : object) :
  has_key k o = true <-> exists v, In (k, v) o.
Proof.
  unfold has_key. induction o as [|[k' v'] o IH]; cbn [lookup].
  - split; [discriminate|intros [? []]].
  - destruct (String.eqb_spec k' k) as [->|Hne].
    + split; [eauto using in_eq|reflexivity].
    + rewrite IH. split; intros [v H]; exists v; [now right|].
      destruct H as [H|H]; [congruence|assumption].
Qed.

Lemma in_set_same k v (o : object) : In (k, v) (set k v o).
Proof.
  unfold set. destruct (has_key k o) eqn:Hk.
  - apply has_key_in in Hk as [v' Hin].
    apply in_map_iff. exists (k, v'). cbn [fst].
    now rewrite String.eqb_refl.
  - apply in_or_app. right. now left.
Qed.

Lemma in_set k v kv (o : object) :
  In kv (set k v o) -> kv = (k, v) \/ (In kv o /\ fst kv <> k).
Proof.
  unfold set. destruct (has_key k o) eqn:Hk.
  - rewrite in_map_iff. intros [[k' v'] [Heq Hin]]. cbn [fst] in Heq.
    destruct (String.eqb_spec k' k) as [->|Hne]; [now left|].
    subst kv. right. now split.
  - intros H. apply in_app_or in H as [H|[H|[]]]; [|now left].
    right. split; [assumption|]. intros Heq. destruct kv as [k' v']. cbn in Heq. subst k'.
    assert (has_key k o = true) by (apply has_key_in; eauto). congruence.
Qed.

Lemma lookup_unique k x (o : object) :
  (exists v, In (k, v) o) -> (forall v, In (k, v) o -> v = x) ->
  lookup k o = Some x.
Proof.
  induction o as [|[k' v'] o IH]; intros [v Hin] Hall; [destruct Hin|].
  cbn [lookup]. destruct (String.eqb_spec k' k) as [->|Hne].
  - f_equal. apply Hall. now left.
  - apply IH.
    + destruct Hin as [Heq|Hin]; [congruence|eauto].
    + intros w Hw. apply Hall. now right.
Qed.

(** ** Normalisation *)

Lemma remove_disabled_filter es (actions actions' : object) :
  remove_disabled es actions = inr actions' ->
  actions' = filter (kept es) actions.
Proof.
  revert actions. induction es as [|[key value] es IH]; intros actions H.
  - inv H. symmetry. apply forallb_filter_id. now apply forallb_forall.
  - cbn [remove_disabled] in H.
    assert (Hdel : forall o, filter (kept es) (delete key o)
                             = filter (fun kv => negb (String.eqb key (fst kv)) && kept es kv)%bool o).
    { intros o. unfold delete. rewrite filter_filter. apply filter_ext.
      intros kv. now rewrite (String.eqb_sym (fst kv) key). }
    unfold kept at 1. cbn [existsb fst snd]. unfold disabled.
    destruct (is_false value || is_zero value)%bool eqn:Hd.
    + apply IH in H. rewrite H, Hdel. apply filter_ext. intros kv.
      cbn [orb]. rewrite andb_true_r, negb_orb. reflexivity.
    + cbn [orb]. destruct (length_prop value) as [len|]; [|discriminate].
      destruct (is_zero len).
      * apply IH in H. rewrite H, Hdel. apply filter_ext. intros kv.
        rewrite andb_true_r, negb_orb. reflexivity.
      * apply IH in H. rewrite H. apply filter_ext. intros kv.
        rewrite andb_false_r. reflexivity.
Qed.

Lemma kept_enabled es k v :
  In (k, v) es -> kept es (k, v) = true -> disabled v = false.
Proof.
  unfold kept. rewrite negb_true_iff. intros Hin Hex.
  destruct (disabled v) eqn:Hd; [|reflexivity].
  assert (existsb (fun e => String.eqb (fst e) (fst (k, v)) && disabled (snd e))%bool es = true).
  { apply existsb_exists. exists (k, v). cbn [fst snd].
    now rewrite String.eqb_refl, Hd. }
  congruence.
Qed.

Section Properties.

Variable cfg : Config.
Variable P : Provider.
Variable RULES : Rules.

(** ** What normalisation leaves *)

Lemma disabled_enabled v : disabled v = false -> enabled v.
Proof. intros H. repeat split; intros ->; discriminate. Qed.

Lemma normalize_enabled (actions0 actions : object) k v :
  normalize cfg RULES actions0 = inr actions ->
  In (k, v) actions -> disabled v = false.
Proof.
  unfold normalize. cbv zeta. intros H Hin.
  apply remove_disabled_filter in H. subst actions.
  apply filter_In in Hin as [Hin Hk]. eauto using kept_enabled.
Qed.

Lemma normalize_from (actions0 actions : object) kv :
  normalize cfg RULES actions0 = inr actions ->
  In kv actions ->
  In kv actions0 \/ kv = ("_resign", VNumber (Num 1)).
Proof.
  unfold normalize. cbv zeta. intros H Hin.
  apply remove_disabled_filter in H. subst actions.
  apply filter_In in Hin as [Hin _]. unfold entries in Hin.
  assert (Hundo : In kv (if (NO_UNDO cfg && has_key "undo" actions0)%bool
                         then delete "undo" actions0 else actions0) ->
                  In kv actions0).
  { destruct (NO_UNDO cfg && has_key "undo" actions0)%bool; [|auto].
    intros Hd. now apply in_delete in Hd. }
  destruct (resign RULES); [destruct (negb (NO_RESIGN cfg))|]; auto.
  apply in_set in Hin as [->|[Hin _]]; auto.
Qed.

Lemma normalize_resign (actions0 actions : object) :
  NO_RESIGN cfg = false -> resign RULES <> None ->
  normalize cfg RULES actions0 = inr actions ->
  In ("_resign", VNumber (Num 1)) actions.
Proof.
  unfold normalize. cbv zeta. intros Hno Hres H.
  apply remove_disabled_filter in H. subst actions.
  destruct (resign RULES); [|congruence]. rewrite Hno. cbn [negb].
  set (o := if (NO_UNDO cfg && has_key "undo" actions0)%bool
            then delete "undo" actions0 else actions0).
  apply filter_In. split; [apply in_set_same|].
  unfold kept. apply negb_true_iff.
  destruct (existsb _ _) eqn:Hex; [|reflexivity].
  apply existsb_exists in Hex as [[k v] [Hin Hk]]. cbn [fst snd] in Hk.
  apply andb_true_iff in Hk as [Hk Hd]. apply String.eqb_eq in Hk. subst k.
  unfold entries in Hin. apply in_set in Hin as [Heq|[_ Hne]].
  - inv Heq. discriminate.
  - now cbn in Hne.
Qed.

Lemma normalize_resign_only (actions0 actions : object) v :
  NO_RESIGN cfg = false -> resign RULES <> None ->
  normalize cfg RULES actions0 = inr actions ->
  In ("_resign", v) actions -> v = VNumber (Num 1).
Proof.
  unfold normalize. cbv zeta. intros Hno Hres H Hin.
  apply remove_disabled_filter in H. subst actions.
  destruct (resign RULES); [|congruence]. rewrite Hno in Hin. cbn [negb] in Hin.
  apply filter_In in Hin as [Hin _]. unfold entries in Hin.
  apply in_set in Hin as [Heq|[_ Hne]]; [now inv Heq|now cbn in Hne].
Qed.

(** ** The loop returns *)

Section Termination.

Variable random : Random.

Lemma decide_next_bound gs (l : Loop P) c :
  decide cfg P RULES random gs l = Next c -> l_step l <= MAX_STEPS cfg.
Proof.
  unfold decide. intros H. cbv zeta in H.
  destruct (Z.gtb_spec (l_step l) (MAX_STEPS cfg)); [|lia].
  repeat split_match_in H; discriminate.
Qed.

Lemma turn_next gs (l l' : Loop P) :
  turn cfg P RULES random gs l = Next l' ->
  l_step l' = l_step l + 1 /\ l_step l <= MAX_STEPS cfg.
Proof.
  unfold turn. intros H.
  destruct (decide cfg P RULES random gs l) eqn:Hd; [|discriminate].
  apply decide_next_bound in Hd.
  destruct (apply_action P RULES (l_state l) a); inv H. simpl. lia.
Qed.

Lemma loop_returns gs fuel (l : Loop P) :
  (Z.to_nat (MAX_STEPS cfg + 1 - l_step l) < fuel)%nat ->
  exists r, loop cfg P RULES random fuel gs l = Some r.
Proof.
  revert l. induction fuel as [|fuel IH]; intros l Hf; [lia|].
  simpl. destruct (turn cfg P RULES random gs l) as [l'|r] eqn:Ht.
  - apply turn_next in Ht. apply IH. lia.
  - now exists r.
Qed.

Lemma loop_more_fuel gs fuel fuel' (l : Loop P) r :
  loop cfg P RULES random fuel gs l = Some r -> (fuel <= fuel')%nat ->
  loop cfg P RULES random fuel' gs l = Some r.
Proof.
  revert fuel' l. induction fuel as [|fuel IH]; intros fuel' l H Hle; [discriminate|].
  destruct fuel' as [|fuel']; [lia|]. simpl in *.
  destruct (turn cfg P RULES random gs l); [|assumption].
  apply IH; [assumption|lia].
Qed.

Lemma start_step input gs (l : Loop P) :
  start cfg P RULES random input = Next (gs, l) ->
  l_step l = 0 /\ l_world l = empty_world /\ accepted (l_trace l) = 0.
Proof.
  unfold start. intros H.
  repeat split_match_in H; try discriminate. inv H. simpl. auto.
Qed.

(** [fuzz] returns a run for every input, and more turns than [max_turns]
    change nothing. *)
Lemma fuzz_returns input :
  exists r, fuzz cfg P RULES random input = Some r.
Proof.
  unfold fuzz, fuzz_within.
  destruct (start cfg P RULES random input) as [[gs l]|r] eqn:Hs; [|now exists r].
  apply loop_returns. apply start_step in Hs as [-> _]. unfold max_turns. lia.
Qed.

Lemma fuzz_within_more_fuel fuel input r :
  fuzz cfg P RULES random input = Some r -> (max_turns cfg <= fuel)%nat ->
  fuzz_within cfg P RULES random fuel input = Some r.
Proof.
  unfold fuzz, fuzz_within.
  destruct (start cfg P RULES random input) as [[gs l]|r']; [|auto].
  apply loop_more_fuel.
Qed.

End Termination.

(** ** Deterministic mode never consults [Math.random] *)

Section Deterministic.

Hypothesis deterministic : RND cfg = false.

Variables random1 random2 : Random.

Lemma rnd_deterministic data min max :
  rnd cfg P random1 data min max = rnd cfg P random2 data min max.
Proof. unfold rnd. now rewrite deterministic. Qed.

Lemma pick_deterministic data a :
  pick cfg P random1 data a = pick cfg P random2 data a.
Proof. unfold pick. now rewrite deterministic. Qed.

Lemma decide_deterministic gs l :
  decide cfg P RULES random1 gs l = decide cfg P RULES random2 gs l.
Proof.
  unfold decide. cbv zeta.
  repeat first [ reflexivity | rewrite pick_deterministic | split_match_goal ].
Qed.

Lemma turn_deterministic gs l :
  turn cfg P RULES random1 gs l = turn cfg P RULES random2 gs l.
Proof. unfold turn. now rewrite decide_deterministic. Qed.

Lemma loop_deterministic fuel gs l :
  loop cfg P RULES random1 fuel gs l = loop cfg P RULES random2 fuel gs l.
Proof.
  revert l. induction fuel as [|fuel IH]; intros l; [reflexivity|].
  simpl. rewrite turn_deterministic.
  destruct (turn cfg P RULES random2 gs l); auto.
Qed.

Lemma start_deterministic input :
  start cfg P RULES random1 input = start cfg P RULES random2 input.
Proof.
  unfold start. cbv zeta. rewrite rnd_deterministic.
  destruct (rnd cfg P random2 _ _ _). now rewrite pick_deterministic.
Qed.

Lemma fuzz_deterministic input :
  fuzz cfg P RULES random1 input = fuzz cfg P RULES random2 input.
Proof.
  unfold fuzz, fuzz_within. rewrite start_deterministic.
  destruct (start cfg P RULES random2 input) as [[gs l]|r]; [|reflexivity].
  apply loop_deterministic.
Qed.

End Deterministic.

(** C1. In deterministic mode ([RND] false) two runs on the same buffer of
    at least 16 bytes with the same rules module yield the same run: the
    same decisions (seed, scenario, roles, actions, arguments), the same
    final state and the same return value or error.  Two runs can differ
    only in what [Math.random] returns, and here it is never called. *)
Theorem deterministic_runs_agree (random1 random2 : Random) input :
  RND cfg = false ->
  (16 <= List.length input)%nat ->
  exists r,
    fuzz cfg P RULES random1 input = Some r /\
    fuzz cfg P RULES random2 input = Some r.
Proof.
  intros Hdet _.
  destruct (fuzz_returns random1 input) as [r Hr].
  exists r. split; [assumption|].
  now rewrite <- (fuzz_deterministic Hdet random1 random2).
Qed.

(** C2. In deterministic mode a buffer of fewer than 16 bytes makes
    [fuzz] return -1 at once: no decision has been drawn, nothing is on the
    console and [crash-state.json] is not written. *)
Theorem short_input_returns_minus_one (random : Random) input :
  ProviderOK P ->
  RND cfg = false ->
  (List.length input < 16)%nat ->
  fuzz cfg P RULES random input =
  Some {| outcome := Return minus_one; run_world := empty_world;
          run_trace := []; run_state := None; run_step := 0 |}.
Proof.
  intros HP Hdet Hlen. unfold fuzz, fuzz_within, start. cbv zeta.
  cbn [provider]. rewrite Hdet, (remaining_at_start P HP).
  destruct (Z.ltb_spec (Z.of_nat (List.length input)) 16); [reflexivity|lia].
Qed.

(** ** The step counter *)

Section Steps.

Variable random : Random.

Lemma decide_stop_step gs (l : Loop P) r :
  decide cfg P RULES random gs l = Stop r ->
  run_step r = l_step l /\ run_state r = Some (l_state l) /\
  accepted (run_trace r) = accepted (l_trace l).
Proof.
  unfold decide. cbv zeta. intros H.
  repeat split_match_in H; inv H; cbn [finish run_step run_state run_trace];
    rewrite ?accepted_app; cbn [accepted]; auto with zarith.
Qed.

Lemma decide_next_accepted gs (l : Loop P) c :
  decide cfg P RULES random gs l = Next c ->
  accepted (ch_trace c) = accepted (l_trace l).
Proof.
  unfold decide. cbv zeta. intros H.
  repeat split_match_in H; inv H; cbn [ch_trace];
    rewrite ?accepted_app; cbn [accepted]; auto with zarith.
Qed.

Lemma turn_next_accepted gs (l l' : Loop P) :
  turn cfg P RULES random gs l = Next l' ->
  accepted (l_trace l') = accepted (l_trace l) + 1.
Proof.
  unfold turn. intros H.
  destruct (decide cfg P RULES random gs l) eqn:Hd; [|discriminate].
  apply decide_next_accepted in Hd.
  destruct (apply_action P RULES (l_state l) a); inv H.
  cbn [l_trace]. rewrite accepted_app. cbn [accepted]. lia.
Qed.

Lemma turn_stop_step gs (l : Loop P) r :
  turn cfg P RULES random gs l = Stop r ->
  run_step r = l_step l /\ run_state r = Some (l_state l) /\
  accepted (run_trace r) = accepted (l_trace l).
Proof.
  unfold turn. intros H.
  destruct (decide cfg P RULES random gs l) eqn:Hd.
  - pose proof (decide_next_accepted _ _ _ Hd).
    destruct (apply_action P RULES (l_state l) a); inv H. cbn. auto.
  - inv H. eauto using decide_stop_step.
Qed.

(** The last turn of a run: the one that stopped. *)
Lemma loop_last_turn fuel gs (l : Loop P) r :
  loop cfg P RULES random fuel gs l = Some r ->
  exists n l', turns cfg P RULES random n gs l = Some l' /\
               turn cfg P RULES random gs l' = Stop r /\
               l_step l' = l_step l + Z.of_nat n /\
               accepted (l_trace l') = accepted (l_trace l) + Z.of_nat n.
Proof.
  revert l. induction fuel as [|fuel IH]; intros l H; [discriminate|].
  simpl in H. destruct (turn cfg P RULES random gs l) as [l1|r1] eqn:Ht.
  - destruct (IH _ H) as (n & l' & Hn & Hl & Hs & Ha).
    exists (S n), l'. cbn [turns]. rewrite Ht.
    apply turn_next in Ht as Hstep. apply turn_next_accepted in Ht.
    repeat split; auto; lia.
  - inv H. exists O, l. cbn [turns]. repeat split; auto; lia.
Qed.

Lemma turns_step_bound n gs (l l' : Loop P) :
  turns cfg P RULES random (S n) gs l = Some l' ->
  l_step l' <= MAX_STEPS cfg + 1.
Proof.
  revert l. induction n as [|n IH]; intros l H; cbn [turns] in H;
    destruct (turn cfg P RULES random gs l) as [l1|] eqn:Ht; try discriminate.
  - inv H. apply turn_next in Ht. lia.
  - apply (IH l1). cbn [turns]. exact H.
Qed.

(** Picking from a non-empty array returns, in either mode. *)
Lemma pick_array_returns data l :
  ProviderOK P -> l <> [] ->
  exists v data', pick cfg P random data (VArray l) = inr (v, data').
Proof.
  intros HP Hl. unfold pick. destruct (RND cfg).
  - cbn [length_prop]. destruct (rnd cfg P random data 1 _). eauto.
  - destruct (pickValue_array P HP (provider data) l Hl) as (v & d' & -> & _).
    eauto.
Qed.

Lemma pick_array_member data l v data' :
  ProviderOK P -> RandomOK random -> l <> [] ->
  pick cfg P random data (VArray l) = inr (v, data') -> In v l.
Proof.
  intros HP HR Hl. unfold pick, rnd. destruct (RND cfg).
  - cbn [length_prop]. intros H. inv H.
    assert (0 < Z.of_nat (List.length l)) by (destruct l; [congruence|cbn [List.length]; lia]).
    pose proof (HR (random_calls data) 1 (Z.of_nat (List.length l))) as Hx.
    unfold elem. destruct (Z.ltb_spec (random (random_calls data) 1 (Z.of_nat (List.length l)) - 1) 0); [lia|].
    apply nth_In. lia.
  - destruct (pickValue_array P HP (provider data) l Hl) as (v' & d' & -> & Hin).
    intros H. now inv H.
Qed.

Lemma decide_stop_bound gs (l : Loop P) r :
  decide cfg P RULES random gs l = Stop r ->
  ((exists m, outcome r = Throw (MaxStepsExceededError m)) -> MAX_STEPS cfg < l_step l)
  /\ (ProviderOK P -> roles RULES <> [] ->
      MAX_STEPS cfg < l_step l -> outcome r <> Return minus_one ->
      exists m, outcome r = Throw (MaxStepsExceededError m)).
Proof.
  unfold decide. cbv zeta. intros H.
  destruct (Z.gtb_spec (l_step l) (MAX_STEPS cfg)) as [Hgt|Hle].
  - split; [intros _; lia|]. intros HP Hroles _ Hnot.
    repeat split_match_in H; inv H; cbn [finish outcome] in *;
      try congruence; eauto.
    all: match goal with
         | Hp : pick _ _ _ _ (VArray (roles RULES)) = inl _ |- _ =>
             destruct (pick_array_returns (l_data l) (roles RULES) HP Hroles)
               as (? & ? & Hok); congruence
         end.
  - split.
    + intros [m Hm]. repeat split_match_in H; inv H; discriminate.
    + intros; lia.
Qed.

Lemma turn_stop_bound gs (l : Loop P) r :
  turn cfg P RULES random gs l = Stop r ->
  ((exists m, outcome r = Throw (MaxStepsExceededError m)) -> MAX_STEPS cfg < l_step l)
  /\ (ProviderOK P -> roles RULES <> [] ->
      MAX_STEPS cfg < l_step l -> outcome r <> Return minus_one ->
      exists m, outcome r = Throw (MaxStepsExceededError m)).
Proof.
  unfold turn. intros H.
  destruct (decide cfg P RULES random gs l) eqn:Hd.
  - apply decide_next_bound in Hd.
    destruct (apply_action P RULES (l_state l) a) as [e|]; inv H.
    cbn [finish outcome]. split; [|intros; lia].
    intros [m Hm]. destruct e as [| |[]]; discriminate.
  - inv H. eauto using decide_stop_bound.
Qed.

(** ** The picked action *)

Lemma picked_action_good data (actions0 actions : object) chosen data' :
  ProviderOK P -> RandomOK random ->
  normalize cfg RULES actions0 = inr actions ->
  (List.length (keys actions) =? 0)%nat = false ->
  pick cfg P random data (VArray (map VString (keys actions))) = inr (chosen, data') ->
  good_pick cfg RULES actions chosen.
Proof.
  intros HP HR Hn Hlen Hpick. split; [eauto|].
  apply pick_array_member in Hpick; auto.
  - apply in_map_iff in Hpick as [k [<- Hk]]. exists k.
    split; [reflexivity|]. split; [assumption|]. intros d Hin.
    apply disabled_enabled. eauto using normalize_enabled.
  - destruct (keys actions); [discriminate|]. discriminate.
Qed.

Lemma decide_good gs (l : Loop P) :
  ProviderOK P -> RandomOK random ->
  Forall (good_event cfg RULES) (l_trace l) ->
  match decide cfg P RULES random gs l with
  | Next c => Forall (good_event cfg RULES) (ch_trace c)
  | Stop r => Forall (good_event cfg RULES) (run_trace r)
  end.
Proof.
  intros HP HR Hl. unfold decide. cbv zeta.
  repeat split_match_goal; cbn [finish run_trace ch_trace];
    repeat match goal with
           | H : inl _ = inr _ |- _ => discriminate H
           | H : inr _ = inl _ |- _ => discriminate H
           | H : inr _ = inr _ |- _ => inv H
           end;
    repeat (apply Forall_app; split); auto;
    try (apply Forall_cons; [|apply Forall_nil]); cbn [good_event];
    eauto using picked_action_good.
Qed.

Lemma turn_good gs (l : Loop P) :
  ProviderOK P -> RandomOK random ->
  Forall (good_event cfg RULES) (l_trace l) ->
  match turn cfg P RULES random gs l with
  | Next l' => Forall (good_event cfg RULES) (l_trace l')
  | Stop r => Forall (good_event cfg RULES) (run_trace r)
  end.
Proof.
  intros HP HR Hl. unfold turn.
  pose proof (decide_good gs l HP HR Hl) as Hd.
  destruct (decide cfg P RULES random gs l); [|assumption].
  destruct (apply_action P RULES (l_state l) a); cbn [finish run_trace l_trace]; auto.
  apply Forall_app. split; [assumption|]. now repeat constructor.
Qed.

Lemma loop_good fuel gs (l : Loop P) r :
  ProviderOK P -> RandomOK random ->
  Forall (good_event cfg RULES) (l_trace l) ->
  loop cfg P RULES random fuel gs l = Some r ->
  Forall (good_event cfg RULES) (run_trace r).
Proof.
  intros HP HR. revert l. induction fuel as [|fuel IH]; intros l Hl H; [discriminate|].
  cbn [loop] in H. pose proof (turn_good gs l HP HR Hl) as Ht.
  destruct (turn cfg P RULES random gs l); [eauto|now inv H].
Qed.

(** ** Dumps *)

Lemma log_crash_dumped gs state v step active action args w :
  clean w ->
  dumped (log_crash gs state v step active action args w) state step active v.
Proof.
  intros [Hc _]. unfold dumped, log_crash. cbn [console crash_state_json].
  rewrite Hc. eexists. split; [reflexivity|].
  destruct (is_undefined action); cbn; auto.
Qed.

Lemma call_fuzz_log_clean state (c : Choice P) w :
  console (call_fuzz_log P RULES state c w) = console w /\
  crash_state_json (call_fuzz_log P RULES state c w) = crash_state_json w.
Proof. unfold call_fuzz_log. destruct (fuzz_log RULES); auto. Qed.

Lemma decide_next_view gs (l : Loop P) c :
  decide cfg P RULES random gs l = Next c ->
  normalized_view cfg RULES (l_state l) (ch_active c) (ch_view c).
Proof.
  unfold decide. cbv zeta. intros H.
  repeat split_match_in H; inv H; cbn [ch_active ch_view];
    repeat match goal with
           | H : inr _ = inr _ |- _ => inv H
           | H : inl _ = inr _ |- _ => discriminate H
           end;
    unfold normalized_view; eauto.
Qed.

Lemma decide_stopped gs (l : Loop P) r :
  clean (l_world l) ->
  decide cfg P RULES random gs l = Stop r ->
  stopped cfg RULES (l_state l) (l_step l) (l_world l) r.
Proof.
  unfold decide. cbv zeta. intros Hc H.
  repeat split_match_in H; inv H; unfold stopped; cbn [finish outcome run_world];
    repeat match goal with
           | H : inr _ = inr _ |- _ => inv H
           | H : inl _ = inr _ |- _ => discriminate H
           end;
    first
      [ left; split; [reflexivity|]; split; [reflexivity|]; solve [eauto]
      | right; do 2 eexists; split; [apply log_crash_dumped; assumption|];
        first
          [ left; split; [reflexivity|]; solve [eauto]
          | right; split;
            [unfold normalized_view; do 2 eexists; repeat split; eassumption|];
            solve [eauto] ] ].
Qed.

Lemma turn_stopped gs (l : Loop P) r :
  clean (l_world l) ->
  turn cfg P RULES random gs l = Stop r ->
  stopped cfg RULES (l_state l) (l_step l) (l_world l) r.
Proof.
  unfold turn. intros Hc H.
  destruct (decide cfg P RULES random gs l) as [c|r'] eqn:Hd.
  - apply decide_next_view in Hd.
    destruct (apply_action P RULES (l_state l) c) as [e|]; inv H.
    right. exists (ch_active c), (ch_view c). cbn [finish outcome run_world].
    split.
    + apply log_crash_dumped. destruct Hc as [Hc1 Hc2].
      destruct (call_fuzz_log_clean (l_state l) c (l_world l)) as [H1 H2].
      split; congruence.
    + right. split; [assumption|]. eauto.
  - inv H. now apply (decide_stopped gs).
Qed.

Lemma turn_next_clean gs (l l' : Loop P) :
  clean (l_world l) ->
  turn cfg P RULES random gs l = Next l' -> clean (l_world l').
Proof.
  unfold turn. intros [Hc1 Hc2] H.
  destruct (decide cfg P RULES random gs l) as [c|]; [|discriminate].
  destruct (apply_action P RULES (l_state l) c); inv H. cbn [l_world].
  destruct (call_fuzz_log_clean (l_state l) c (l_world l)) as [H1 H2].
  split; congruence.
Qed.

Lemma turns_clean n gs (l l' : Loop P) :
  clean (l_world l) ->
  turns cfg P RULES random n gs l = Some l' -> clean (l_world l').
Proof.
  revert l. induction n as [|n IH]; intros l Hc H; cbn [turns] in H.
  - now inv H.
  - destruct (turn cfg P RULES random gs l) as [l1|] eqn:Ht; [|discriminate].
    eauto using turn_next_clean.
Qed.

(** Every run is stopped by its last turn, or before the loop. *)
Lemma fuzz_stopped input r :
  fuzz cfg P RULES random input = Some r ->
  (run_world r = empty_world /\ run_state r = None /\
   ((exists v, outcome r = Return v) \/ (exists e, outcome r = Throw (Uncaught e))))
  \/ (exists gs l, clean (l_world l) /\
                   turn cfg P RULES random gs l = Stop r /\
                   stopped cfg RULES (l_state l) (l_step l) (l_world l) r).
Proof.
  unfold fuzz, fuzz_within. intros H.
  destruct (start cfg P RULES random input) as [[gs l0]|r0] eqn:Hs.
  - right. apply start_step in Hs as (_ & Hw & _).
    apply loop_last_turn in H as (n & l' & Hn & Hlast & _).
    assert (clean (l_world l')).
    { apply (turns_clean n gs l0); [|assumption]. rewrite Hw. now split. }
    exists gs, l'. eauto using turn_stopped.
  - left. inv H. unfold start in Hs. cbv zeta in Hs.
    repeat split_match_in Hs; inv Hs; cbn; eauto.
Qed.

(** An error of one of the driver's four classes comes with a dump. *)
Lemma classified_error_is_dumped input r e :
  fuzz cfg P RULES random input = Some r ->
  outcome r = Throw e -> classified e = true ->
  exists state active v,
    run_state r = Some state /\
    dumped (run_world r) state (run_step r) active v.
Proof.
  intros H He Hc. apply fuzz_stopped in H as [(_ & _ & [[v Hv]|[e' He']])|H];
    [congruence| rewrite He in He'; inv He'; discriminate |].
  destruct H as (gs & l & Hcl & Ht & Hs).
  apply turn_stop_step in Ht as (-> & -> & _).
  destruct Hs as [(_ & _ & [[v Hv]|[e' He']])|(active & v & Hd & _)];
    [congruence| rewrite He in He'; inv He'; discriminate |].
  eauto.
Qed.

Lemma turn_stop_not_empty gs (l : Loop P) r :
  NO_RESIGN cfg = false -> resign RULES <> None ->
  turn cfg P RULES random gs l = Stop r ->
  outcome r <> Throw (NoMoreActionsError "No more actions to take (besides undo)").
Proof.
  intros Hno Hres. unfold turn.
  destruct (decide cfg P RULES random gs l) as [c|r'] eqn:Hd.
  - destruct (apply_action P RULES (l_state l) c) as [e|]; intros H; inv H.
    cbn [finish outcome]. destruct e as [| |[]]; discriminate.
  - intros H. inv H. unfold decide in Hd. cbv zeta in Hd.
    repeat split_match_in Hd; inv Hd; cbn [finish outcome]; try discriminate.
    all: match goal with
    | Hn : normalize _ _ _ = inr ?o |- _ =>
        pose proof (normalize_resign _ _ Hno Hres Hn) as Hin;
        destruct o; [destruct Hin|discriminate]
    end.
Qed.

(** A run goes through the turns that went round the loop. *)
Lemma loop_turns n fuel gs (l l' : Loop P) :
  turns cfg P RULES random n gs l = Some l' ->
  loop cfg P RULES random (n + fuel) gs l = loop cfg P RULES random fuel gs l'.
Proof.
  revert l. induction n as [|n IH]; intros l H; cbn [turns] in H.
  - now inv H.
  - cbn [Nat.add loop].
    destruct (turn cfg P RULES random gs l) as [l1|]; [auto|discriminate].
Qed.

Lemma turns_step n gs (l l' : Loop P) :
  turns cfg P RULES random n gs l = Some l' ->
  l_step l' = l_step l + Z.of_nat n.
Proof.
  revert l. induction n as [|n IH]; intros l H; cbn [turns] in H.
  - inv H. lia.
  - destruct (turn cfg P RULES random gs l) as [l1|] eqn:Ht; [|discriminate].
    apply turn_next in Ht. apply IH in H. lia.
Qed.

(** A turn on a finished game returns, whatever the view is. *)
Lemma turn_game_over gs (l : Loop P) :
  ProviderOK P -> roles RULES <> [] ->
  16 <= remainingBytes P (provider (l_data l)) ->
  l_step l <= MAX_STEPS cfg ->
  st_state (l_state l) = VString "game_over" ->
  exists tr,
    turn cfg P RULES random gs l
    = Stop (finish (Return VUndefined) (l_state l) (l_step l) (l_world l) tr)
    /\ accepted tr = accepted (l_trace l).
Proof.
  intros HP Hroles Hrem Hstep Hover. unfold turn, decide. cbv zeta.
  destruct (Z.ltb_spec (remainingBytes P (provider (l_data l))) 16); [lia|].
  rewrite andb_false_r.
  destruct (Z.gtb_spec (l_step l) (MAX_STEPS cfg)); [lia|].
  rewrite Hover. cbn [is_string]. rewrite String.eqb_refl.
  destruct (is_string (st_active (l_state l)) "Both"
            || is_string (st_active (l_state l)) "All")%bool.
  - destruct (pick_array_returns (l_data l) (roles RULES) HP Hroles)
      as (v & d & ->).
    eexists. split; [reflexivity|]. rewrite accepted_app. cbn [accepted]. lia.
  - eexists. split; reflexivity.
Qed.

End Steps.

(** C5. The step counter is 0 at the entry of the loop; a turn that goes
    round the loop has had its action accepted by the rules module and
    leaves the counter one higher, and a turn that stops leaves it as it
    was, so that the counter of a run is the number of its accepted
    actions.  It never passes [MAX_STEPS + 1].  In a run that was never
    short of input (it did not return -1), [MaxStepsExceededError] is
    thrown exactly when the counter is above [MAX_STEPS]. *)
Theorem step_counter_counts_accepted_actions (random : Random) input r :
  ProviderOK P ->
  scenarios RULES <> [] ->
  roles RULES <> [] ->
  fuzz cfg P RULES random input = Some r ->
  (forall gs l, start cfg P RULES random input = Next (gs, l) -> l_step l = 0)
  /\ (forall gs l l',
        turn cfg P RULES random gs l = Next l' ->
        l_step l' = l_step l + 1 /\
        accepted (l_trace l') = accepted (l_trace l) + 1)
  /\ (forall gs l r',
        turn cfg P RULES random gs l = Stop r' ->
        run_step r' = l_step l /\
        accepted (run_trace r') = accepted (l_trace l))
  /\ run_step r = accepted (run_trace r)
  /\ run_step r <= Z.max 0 (MAX_STEPS cfg + 1)
  /\ (outcome r <> Return minus_one ->
      ((exists m, outcome r = Throw (MaxStepsExceededError m))
       <-> MAX_STEPS cfg < run_step r)).
Proof.
  intros HP Hsc Hroles Hrun.
  split; [intros gs l Hs; now apply start_step in Hs|].
  split; [intros gs l l' Ht; split;
          [now apply turn_next in Ht | now apply turn_next_accepted in Ht]|].
  split; [intros gs l r' Ht; apply turn_stop_step in Ht; tauto|].
  unfold fuzz, fuzz_within in Hrun.
  destruct (start cfg P RULES random input) as [[gs l0]|r0] eqn:Hs.
  - apply start_step in Hs as (Hs0 & _ & Ha0).
    apply loop_last_turn in Hrun as (n & l' & Hn & Hlast & Hstep & Hacc).
    pose proof (turn_stop_step _ _ _ _ Hlast) as (Hrs & _ & Hra).
    pose proof (turn_stop_bound _ _ _ _ Hlast) as (Hb1 & Hb2).
    assert (Hle : l_step l' <= Z.max 0 (MAX_STEPS cfg + 1)).
    { destruct n as [|n]; [lia|]. apply turns_step_bound in Hn. lia. }
    rewrite Hrs, Hra. repeat split; try lia.
    + intros Hm. apply Hb1. assumption.
    + intros Hgt. apply Hb2; assumption.
  - inv Hrun. unfold start in Hs. cbv zeta in Hs.
    repeat split_match_in Hs; inv Hs; cbn [run_step run_trace outcome accepted].
    + split; [reflexivity|]. split; [lia|]. congruence.
    + split; [reflexivity|]. split; [lia|]. intros _.
      destruct (pick_array_returns random d (scenarios RULES) HP Hsc)
        as (? & ? & Hok). congruence.
Qed.

(** C6. Normalisation leaves no action whose descriptor is [false], [0] or
    an empty sequence, and adds nothing but [_resign]; and the action
    picked in any turn of a run is one of the normalised set of that turn,
    so that its descriptor is none of those. *)
Theorem picked_action_is_enabled (random : Random) input r :
  ProviderOK P ->
  RandomOK random ->
  fuzz cfg P RULES random input = Some r ->
  (forall actions0 actions k v,
      normalize cfg RULES actions0 = inr actions ->
      In (k, v) actions ->
      enabled v /\ (In (k, v) actions0 \/ (k, v) = ("_resign", VNumber (Num 1))))
  /\ (forall available chosen,
        In (PickedAction available chosen) (run_trace r) ->
        (exists actions0, normalize cfg RULES actions0 = inr available) /\
        exists k, chosen = VString k /\ In k (keys available) /\
                  forall v, In (k, v) available -> enabled v).
Proof.
  intros HP HR Hrun. split.
  - intros actions0 actions k v Hn Hin. split.
    + apply disabled_enabled. eauto using normalize_enabled.
    + eauto using normalize_from.
  - assert (Hgood : Forall (good_event cfg RULES) (run_trace r)).
    { unfold fuzz, fuzz_within in Hrun.
      destruct (start cfg P RULES random input) as [[gs l]|r0] eqn:Hs.
      - apply (loop_good random (max_turns cfg) gs l r HP HR); [|assumption].
        unfold start in Hs. cbv zeta in Hs.
        repeat split_match_in Hs; inv Hs. cbn [l_trace]. now repeat constructor.
      - inv Hrun. unfold start in Hs. cbv zeta in Hs.
        repeat split_match_in Hs; inv Hs; cbn [run_trace]; now repeat constructor. }
    intros available chosen Hin.
    rewrite Forall_forall in Hgood. exact (Hgood _ Hin).
Qed.

(** C7, as amended.  Normalisation works on the actions object of the view
    itself.  Whenever a run wrote [crash-state.json], the console shows one
    dump for the written state and the step counter of the run; the view in
    it is the view of the rules module when the dump was made before
    normalisation (step bound, no [actions] member), and that view with the
    normalised actions in place of its own when it was made after (no
    action left, bad argument pool, failed application). *)
Theorem dumped_view_is_normalized_in_place (random : Random) input r state :
  fuzz cfg P RULES random input = Some r ->
  crash_state_json (run_world r) = Some state ->
  exists active v,
    dumped (run_world r) state (run_step r) active v /\
    run_state r = Some state /\
    ((v = view RULES state active /\
      ((exists m, outcome r = Throw (MaxStepsExceededError m)) \/
       outcome r = Throw (NoMoreActionsError "No actions defined")))
     \/
     (normalized_view cfg RULES state active v /\
      (outcome r = Throw (NoMoreActionsError "No more actions to take (besides undo)") \/
       (exists m, outcome r = Throw (InvalidActionArgument m)) \/
       (exists e, outcome r = Throw (rules_crash e))))).
Proof.
  intros H Hfile.
  apply fuzz_stopped in H as [(Hw & _)|(gs & l & [_ Hcl] & Ht & Hs)].
  - rewrite Hw in Hfile. discriminate.
  - apply turn_stop_step in Ht as (Hstep & Hstate & _).
    destruct Hs as [(_ & Hsame & _)|(active & v & Hd & Hv)]; [congruence|].
    assert (state = l_state l) as ->.
    { destruct Hd as (? & _ & _ & _ & Hf). congruence. }
    exists active, v. rewrite Hstep. auto.
Qed.

(** C8. When the first two turns of a run went round the loop and the
    third, at step counter 2, has its action refused by the rules module
    with an error [e], the run throws a [RulesCrashError] holding [e]; the
    dump shows step 2, and the state written to [crash-state.json] is the
    state that the second accepted action returned, the one the failed
    application was given. *)
Theorem third_application_failure_is_dumped (random : Random) input gs l0 l2 c e :
  start cfg P RULES random input = Next (gs, l0) ->
  turns cfg P RULES random 2 gs l0 = Some l2 ->
  decide cfg P RULES random gs l2 = Next c ->
  apply_action P RULES (l_state l2) c = inl e ->
  has_stack e = true ->
  exists r,
    fuzz cfg P RULES random input = Some r /\
    outcome r = Throw (RulesCrashError e) /\
    run_step r = 2 /\
    l_step l2 = 2 /\
    accepted (run_trace r) = 2 /\
    dumped (run_world r) (l_state l2) 2 (ch_active c) (ch_view c) /\
    run_state r = Some (l_state l2).
Proof.
  intros Hs Hturns Hd Hfail Hstack.
  pose proof (start_step _ _ _ _ Hs) as (Hs0 & Hw0 & Ha0).
  pose proof (turns_step _ _ _ _ _ Hturns) as Hstep. rewrite Hs0 in Hstep.
  cbn in Hstep.
  pose proof (decide_next_bound _ _ _ _ Hd) as Hbound.
  pose proof (decide_next_accepted _ _ _ _ Hd) as Hacc.
  assert (Hclean : clean (l_world l2)).
  { apply (turns_clean random 2 gs l0); [|assumption]. rewrite Hw0. now split. }
  assert (Ha2 : accepted (l_trace l2) = 2).
  { cbn [turns] in Hturns.
    destruct (turn cfg P RULES random gs l0) as [l1|] eqn:Ht0; [|discriminate].
    destruct (turn cfg P RULES random gs l1) as [l2'|] eqn:Ht1; [|discriminate].
    inv Hturns. apply turn_next_accepted in Ht0, Ht1. lia. }
  assert (Hturn : turn cfg P RULES random gs l2
                  = Stop (finish (Throw (RulesCrashError e)) (l_state l2) (l_step l2)
                            (log_crash gs (l_state l2) (ch_view c) (l_step l2)
                               (ch_active c) (ch_action c) (ch_arg c)
                               (call_fuzz_log P RULES (l_state l2) c (l_world l2)))
                            (ch_trace c))).
  { unfold turn. rewrite Hd, Hfail. destruct e as [| |[]]; try reflexivity; discriminate. }
  eexists. split.
  - unfold fuzz, fuzz_within. rewrite Hs.
    assert (Hfuel : max_turns cfg = (2 + S (Z.to_nat (MAX_STEPS cfg - 1)))%nat)
      by (unfold max_turns; lia).
    rewrite Hfuel, (loop_turns random 2 _ gs l0 l2 Hturns).
    cbn [loop]. rewrite Hturn. reflexivity.
  - cbn [finish outcome run_step run_world run_state run_trace].
    rewrite Hstep. repeat split; try lia.
    apply log_crash_dumped.
    destruct Hclean as [Hc1 Hc2].
    destruct (call_fuzz_log_clean (l_state l2) c (l_world l2)) as [H1 H2].
    split; congruence.
Qed.

(** C9, as amended.  When [MAX_STEPS] is not negative, [RULES.setup]
    returns a state whose [state] member is "game_over" and at least 16
    bytes remain at the entry of the loop, the first turn finds the game
    over at step counter 0 and [fuzz] returns normally: nothing is thrown,
    no action is applied, nothing is dumped.  (The list of roles is not
    empty, so that the role of a state for "Both" or "All" can be picked.) *)
Theorem game_over_at_setup_returns (random : Random) input gs l0 :
  ProviderOK P ->
  roles RULES <> [] ->
  0 <= MAX_STEPS cfg ->
  (forall seed scenario,
      st_state (setup RULES seed scenario) = VString "game_over") ->
  start cfg P RULES random input = Next (gs, l0) ->
  16 <= remainingBytes P (provider (l_data l0)) ->
  exists r,
    fuzz cfg P RULES random input = Some r /\
    outcome r = Return VUndefined /\
    run_step r = 0 /\
    accepted (run_trace r) = 0 /\
    run_world r = empty_world /\
    run_state r = Some (setup RULES (gs_seed gs) (gs_scenario gs)).
Proof.
  intros HP Hroles Hmax Hover Hs Hrem.
  pose proof (start_step _ _ _ _ Hs) as (Hs0 & Hw0 & Ha0).
  assert (Hstate : l_state l0 = setup RULES (gs_seed gs) (gs_scenario gs)).
  { unfold start in Hs. cbv zeta in Hs.
    repeat split_match_in Hs; inv Hs. reflexivity. }
  destruct (turn_game_over random gs l0 HP Hroles Hrem) as (tr & Ht & Hacc).
  - lia.
  - rewrite Hstate. apply Hover.
  - eexists. split.
    + unfold fuzz, fuzz_within, max_turns. rewrite Hs. cbn [loop].
      rewrite Ht. reflexivity.
    + cbn [finish outcome run_step run_world run_state run_trace].
      rewrite Hw0, Hstate. repeat split; auto; lia.
Qed.

(** C10. When the rules module has a [resign] and [NO_RESIGN] is off, a
    normalised set of actions holds [_resign] with descriptor 1, and holds
    it under no other descriptor, so the set is never empty; and no run
    throws the [NoMoreActionsError] of an empty normalised set. *)
Theorem resign_keeps_actions_nonempty (random : Random) :
  NO_RESIGN cfg = false ->
  resign RULES <> None ->
  (forall actions0 actions,
      normalize cfg RULES actions0 = inr actions ->
      In ("_resign", VNumber (Num 1)) actions /\
      lookup "_resign" actions = Some (VNumber (Num 1)) /\
      keys actions <> [])
  /\ (forall input r,
        fuzz cfg P RULES random input = Some r ->
        outcome r <>
        Throw (NoMoreActionsError "No more actions to take (besides undo)")).
Proof.
  intros Hno Hres. split.
  - intros actions0 actions Hn.
    pose proof (normalize_resign _ _ Hno Hres Hn) as Hin.
    split; [assumption|]. split.
    + apply lookup_unique; [eauto|].
      intros v Hv. eauto using normalize_resign_only.
    + destruct actions; [destruct Hin|discriminate].
  - intros input r H.
    apply fuzz_stopped in H as [(_ & _ & [[v ->]|[e ->]])|(gs & l & _ & Ht & _)];
      try discriminate.
    eauto using turn_stop_not_empty.
Qed.

End Properties.

(** ** Array pools and the NaN check *)

Lemma digit_facts c :
  is_digit c = true ->
  is_white_space c = false /\ is_sign c = false /\
  is_char c "." = false /\ Ascii.eqb c "I" = false.
Proof.
  destruct c as [[] [] [] [] [] [] [] []]; vm_compute; intros H;
    try discriminate H; auto.
Qed.

Lemma skip_all {A : Type} (p : A -> bool) l : forallb p l = true -> skip p l = [].
Proof.
  induction l as [|x l IH]; cbn [forallb skip]; [reflexivity|].
  intros H. apply andb_true_iff in H as [-> H]. auto.
Qed.

Lemma skip_none {A : Type} (p : A -> bool) x l : p x = false -> skip p (x :: l) = x :: l.
Proof. intros H. cbn [skip]. now rewrite H. Qed.

Lemma trim_digits l :
  l <> [] -> forallb is_digit l = true -> trim l = l.
Proof.
  intros Hne Hall. unfold trim.
  assert (Hws : forall x, In x l -> is_white_space x = false).
  { intros x Hx. rewrite forallb_forall in Hall. now apply digit_facts, Hall. }
  destruct l as [|x l]; [congruence|].
  rewrite skip_none by (apply Hws; now left).
  destruct (rev (x :: l)) as [|y l'] eqn:Hrev.
  - apply (f_equal (@List.length _)) in Hrev. rewrite length_rev in Hrev. discriminate.
  - rewrite skip_none.
    + now rewrite <- Hrev, rev_involutive.
    + apply Hws. apply in_rev. rewrite Hrev. now left.
Qed.

Lemma digits_are_a_number l :
  l <> [] -> forallb is_digit l = true -> decimal_literal l = true.
Proof.
  intros Hne Hall. destruct l as [|x l]; [congruence|].
  pose proof Hall as Hx. cbn [forallb] in Hx. apply andb_true_iff in Hx as [Hx _].
  destruct (digit_facts x Hx) as (_ & Hsign & _ & HI).
  unfold decimal_literal. rewrite Hsign. unfold unsigned_decimal.
  cbn [string_of_list_ascii String.eqb]. rewrite HI.
  rewrite (skip_all is_digit (x :: l) Hall). cbn [nonempty hd andb]. exact Hx.
Qed.

Lemma uint_digits d :
  forallb is_digit (list_ascii_of_string (NilEmpty.string_of_uint d)) = true.
Proof. induction d; cbn; auto. Qed.

Lemma index_key_digits i :
  list_ascii_of_string (index_key i) <> [] /\
  forallb is_digit (list_ascii_of_string (index_key i)) = true.
Proof.
  unfold index_key, NilZero.string_of_uint.
  destruct (Nat.to_uint i) eqn:Hu; try (split; [discriminate|]; rewrite <- Hu; apply uint_digits).
  split; [discriminate|reflexivity].
Qed.

Lemma index_key_is_a_number i : isNaN_string (index_key i) = false.
Proof.
  destruct (index_key_digits i) as [Hne Hall]. unfold isNaN_string.
  rewrite (trim_digits _ Hne Hall).
  pose proof (digits_are_a_number _ Hne Hall) as Hnum.
  destruct (list_ascii_of_string (index_key i)); [reflexivity|].
  now rewrite Hnum.
Qed.

(** The check of lines 110-115 looks at the keys of the pool.  The keys of
    an array are its indices, so that no array fails the check, whatever its
    elements are. *)
Lemma array_pool_passes_the_check l :
  existsb isNaN_string (for_in_keys (VArray l)) = false.
Proof.
  cbn [for_in_keys]. generalize (seq 0 (List.length l)). intros idx.
  induction idx as [|i idx IH]; cbn [map existsb]; [reflexivity|].
  now rewrite index_key_is_a_number, IH.
Qed.

(** ** The provider over a list of bytes *)

Lemma consume_integral_range bytes min max :
  min <= max ->
  min <= fst (ByteProvider.consume_integral bytes min max) <= max.
Proof.
  intros Hle. unfold ByteProvider.consume_integral.
  destruct (Z.leb_spec max min); cbn [fst]; [lia|].
  destruct (ByteProvider.consume _ bytes) as [raw bytes']. cbn [fst].
  pose proof (Z.mod_pos_bound raw (max - min + 1)). lia.
Qed.

Lemma byte_provider_ok : ProviderOK ByteProvider.provider.
Proof.
  split.
  - reflexivity.
  - intros d l Hl. cbn [pickValue ByteProvider.provider ByteProvider.pick_value].
    unfold ByteProvider.pickFrom. destruct l as [|x l]; [congruence|].
    pose proof (consume_integral_range d 0 (Z.of_nat (List.length (x :: l)) - 1)) as Hr.
    destruct (ByteProvider.consume_integral d 0 _) as [i d']. cbn [fst] in Hr.
    do 2 eexists. split; [reflexivity|].
    apply nth_In. cbn [List.length] in *. lia.
Qed.

Lemma lowest_ok : RandomOK lowest.
Proof. unfold RandomOK, lowest. intros; lia. Qed.

Lemma highest_ok : RandomOK highest.
Proof. unfold RandomOK, highest. intros; lia. Qed.

(** ** Runs of the driver *)

(** In random mode the run does depend on what [Math.random] returns. *)
Example random_runs_differ :
  fuzz random_config ByteProvider.provider Games.two_moves lowest (zeros 0)
  <> fuzz random_config ByteProvider.provider Games.two_moves highest (zeros 0).
Proof. vm_compute. discriminate. Qed.

(** With a negative [MAX_STEPS] the bound check, which comes before the
    test for the end of the game, stops a game that is over at step 0. *)
Example negative_bound_stops_a_finished_game :
  exists r m,
    fuzz negative_bound_config ByteProvider.provider Games.finished lowest (zeros 32)
    = Some r /\ outcome r = Throw (MaxStepsExceededError m).
Proof. do 2 eexists. split; vm_compute; reflexivity. Qed.

(** C3, at a view whose only action has the descriptor [null]: reading
    [value.length] in the loop of lines 94-98 throws a [TypeError], which
    leaves [fuzz] as it is: it is none of the four error classes, nothing
    was printed and [crash-state.json] was not written. *)
Theorem null_descriptor_escapes_unclassified :
  exists r e,
    fuzz default_config ByteProvider.provider Games.null_descriptor lowest (zeros 32)
    = Some r /\
    outcome r = Throw e /\
    classified e = false /\
    e = Uncaught (TypeError "Cannot read properties of null") /\
    run_world r = empty_world.
Proof. do 2 eexists. repeat split; vm_compute; reflexivity. Qed.

(** C4, at an action whose argument pool is the array [[NaN]]: the check
    of lines 110-115 passes, [NaN] is picked as the argument and handed to
    [RULES.action], and the run ends normally with nothing dumped. *)
Theorem NaN_in_array_pool_is_picked :
  exists r,
    fuzz default_config ByteProvider.provider Games.nan_pool lowest (zeros 32)
    = Some r /\
    outcome r = Return VUndefined /\
    In (PickedArg (VNumber NaN)) (run_trace r) /\
    In (Accepted (VString "move") (VNumber NaN)) (run_trace r) /\
    run_world r = empty_world.
Proof.
  eexists. split; [vm_compute; reflexivity|].
  cbn [outcome run_trace run_world]. repeat split; auto.
  - do 3 right. now left.
  - do 4 right. now left.
Qed.

(** C9 fails as stated: with [MAX_STEPS] -1 the bound check of lines
    69-72, which comes before the test for the end of the game, finds the
    step counter 0 above the bound.  The game is over as it is set up and
    27 bytes remain at the entry of the loop, and yet [fuzz] throws
    [MaxStepsExceededError] and writes [crash-state.json]. *)
Lemma finished_game_meets_a_negative_bound :
  exists gs l0 r,
    (forall seed scenario,
        st_state (setup Games.finished seed scenario) = VString "game_over") /\
    start negative_bound_config ByteProvider.provider Games.finished lowest (zeros 32)
    = Next (gs, l0) /\
    16 <= remainingBytes ByteProvider.provider (provider (l_data l0)) /\
    fuzz negative_bound_config ByteProvider.provider Games.finished lowest (zeros 32)
    = Some r /\
    outcome r <> Return VUndefined /\
    (exists m, outcome r = Throw (MaxStepsExceededError m)) /\
    crash_state_json (run_world r) <> None.
Proof.
  do 3 eexists. split; [reflexivity|].
  split; [vm_compute; reflexivity|].
  split; [vm_compute; discriminate|].
  split; [vm_compute; reflexivity|].
  split; [discriminate|]. split; [eexists; reflexivity|discriminate].
Qed.

(** C7 fails as stated: when the only action of the view is disabled, the
    view on the console has no action left, while the view of the rules
    module shows the disabled action for every role. *)
Lemma dump_shows_normalized_actions :
  exists r,
    fuzz default_config ByteProvider.provider Games.all_disabled lowest (zeros 32)
    = Some r /\
    ~ dumps_show_engine_view Games.all_disabled r.
Proof.
  eexists. split; [vm_compute; reflexivity|].
  intros H. edestruct H as [active Hv].
  - reflexivity.
  - cbn [run_world console]. right. left. reflexivity.
  - discriminate Hv.
Qed.

(** ** The theorems at work *)

Lemma deterministic_runs_agree_witness :
  exists r,
    fuzz default_config ByteProvider.provider Games.two_moves lowest (zeros 32) = Some r /\
    fuzz default_config ByteProvider.provider Games.two_moves highest (zeros 32) = Some r.
Proof.
  apply deterministic_runs_agree; [reflexivity|cbn; lia].
Defined.

Lemma short_input_returns_minus_one_witness :
  fuzz default_config ByteProvider.provider Games.plain lowest (zeros 15) =
  Some {| outcome := Return minus_one; run_world := empty_world;
          run_trace := []; run_state := None; run_step := 0 |}.
Proof.
  apply short_input_returns_minus_one;
    [exact byte_provider_ok|reflexivity|cbn; lia].
Defined.

Lemma step_counter_counts_accepted_actions_witness :
  exists r,
    fuzz default_config ByteProvider.provider Games.plain lowest (zeros 32) = Some r /\
    run_step r = 3 /\ run_step r = accepted (run_trace r).
Proof.
  eexists. split; [vm_compute; reflexivity|]. split; [reflexivity|].
  refine (proj1 (proj2 (proj2 (proj2
    (step_counter_counts_accepted_actions default_config ByteProvider.provider
       Games.plain lowest (zeros 32) _ byte_provider_ok _ _ _))))).
  - discriminate.
  - discriminate.
  - vm_compute. reflexivity.
Defined.

Lemma picked_action_is_enabled_witness :
  exists r,
    fuzz default_config ByteProvider.provider Games.plain lowest (zeros 32) = Some r /\
    forall available chosen,
      In (PickedAction available chosen) (run_trace r) ->
      exists k, chosen = VString k /\ In k (keys available) /\
                forall v, In (k, v) available -> enabled v.
Proof.
  eexists. split; [vm_compute; reflexivity|].
  intros available chosen Hin.
  refine (proj2 (proj2
    (picked_action_is_enabled default_config ByteProvider.provider
       Games.plain lowest (zeros 32) _ byte_provider_ok lowest_ok _)
    available chosen Hin)).
  vm_compute. reflexivity.
Defined.

Lemma dumped_view_is_normalized_in_place_witness :
  exists r state active v,
    fuzz default_config ByteProvider.provider Games.all_disabled lowest (zeros 32)
    = Some r /\
    dumped (run_world r) state (run_step r) active v /\
    view_actions v = Some [] /\
    view_actions (view Games.all_disabled state active)
    = Some [("pass", VNumber (Num 0))].
Proof.
  edestruct (dumped_view_is_normalized_in_place default_config
               ByteProvider.provider Games.all_disabled lowest (zeros 32))
    as (active & v & Hd & _ & _).
  - vm_compute. reflexivity.
  - reflexivity.
  - eexists _, _, active, v. split; [reflexivity|]. split; [exact Hd|].
    destruct Hd as (ln & Hc & _). cbn [run_world console] in Hc.
    injection Hc as <- _. split; reflexivity.
Defined.

Lemma third_application_failure_is_dumped_witness :
  exists r,
    fuzz default_config ByteProvider.provider Games.crashing lowest (zeros 32) = Some r /\
    outcome r = Throw (RulesCrashError (Error "illegal move")) /\
    run_step r = 2.
Proof.
  edestruct (third_application_failure_is_dumped default_config
               ByteProvider.provider Games.crashing lowest (zeros 32))
    as (r & Hr & Ho & Hs & _).
  - vm_compute. reflexivity.
  - vm_compute. reflexivity.
  - vm_compute. reflexivity.
  - vm_compute. reflexivity.
  - reflexivity.
  - exists r. auto.
Defined.

Lemma game_over_at_setup_returns_witness :
  exists r,
    fuzz default_config ByteProvider.provider Games.finished lowest (zeros 32) = Some r /\
    outcome r = Return VUndefined /\ run_step r = 0.
Proof.
  edestruct (game_over_at_setup_returns default_config ByteProvider.provider
               Games.finished lowest (zeros 32))
    as (r & Hr & Ho & Hs & _).
  - exact byte_provider_ok.
  - discriminate.
  - cbn. lia.
  - reflexivity.
  - vm_compute. reflexivity.
  - vm_compute. discriminate.
  - exists r. auto.
Defined.

Lemma resign_keeps_actions_nonempty_witness :
  exists r,
    fuzz default_config ByteProvider.provider Games.plain lowest (zeros 32) = Some r /\
    outcome r <> Throw (NoMoreActionsError "No more actions to take (besides undo)").
Proof.
  eexists. split; [vm_compute; reflexivity|].
  apply (proj2 (resign_keeps_actions_nonempty default_config ByteProvider.provider
                  Games.plain lowest eq_refl ltac:(discriminate)) (zeros 32)).
  vm_compute. reflexivity.
Defined.

(** * Further properties of the driver *)

(** ** Normalisation, lines 83-98 *)

Lemma in_set_other k v kv (o : object) :
  In kv o -> fst kv <> k -> In kv (set k v o).
Proof.
  intros Hin Hne. unfold set. destruct (has_key k o).
  - apply in_map_iff. exists kv. split; [|assumption].
    destruct (String.eqb_spec (fst kv) k); [contradiction|reflexivity].
  - apply in_or_app. now left.
Qed.

Lemma nullish_length v : length_prop v = None <-> is_nullish v = true.
Proof. destruct v; cbn; split; intros H; try discriminate; reflexivity. Qed.

Lemma nullish_not_off v : is_nullish v = true -> (is_false v || is_zero v)%bool = false.
Proof. destruct v; cbn; intros H; try discriminate; reflexivity. Qed.

Lemma remove_disabled_throws es (actions : object) :
  (exists e, remove_disabled es actions = inl e) <->
  (exists k v, In (k, v) es /\ is_nullish v = true).
Proof.
  revert actions. induction es as [|[key value] es IH]; intros actions.
  - cbn. split; [intros [e He]; discriminate|intros (k & v & [] & _)].
  - cbn [remove_disabled].
    destruct (is_nullish value) eqn:Hn.
    + rewrite (nullish_not_off _ Hn).
      apply nullish_length in Hn as Hlen. rewrite Hlen.
      split; [intros _; exists key, value; split; [now left|assumption]|eauto].
    + assert (Hrest : forall o, (exists e, remove_disabled es o = inl e) <->
                                (exists k v, In (k, v) ((key, value) :: es) /\
                                             is_nullish v = true)).
      { intros o. rewrite IH. split.
        - intros (k & v & Hin & Hv). exists k, v. split; [now right|assumption].
        - intros (k & v & [Heq|Hin] & Hv); [inv Heq; congruence|eauto]. }
      destruct (is_false value || is_zero value)%bool; [apply Hrest|].
      destruct (length_prop value) as [len|] eqn:Hlen.
      * destruct (is_zero len); apply Hrest.
      * apply nullish_length in Hlen. congruence.
Qed.

Lemma set_noop k v (o : object) :
  has_key k o = true -> (forall v', In (k, v') o -> v' = v) -> set k v o = o.
Proof.
  intros Hk Hall. unfold set. rewrite Hk.
  rewrite <- (map_id o) at 2. apply map_ext_in.
  intros [k' v'] Hin. cbn [fst].
  destruct (String.eqb_spec k' k) as [->|]; [|reflexivity].
  now rewrite (Hall _ Hin).
Qed.

Lemma remove_disabled_noop es (actions : object) :
  (forall k v, In (k, v) es -> disabled v = false /\ is_nullish v = false) ->
  remove_disabled es actions = inr actions.
Proof.
  induction es as [|[key value] es IH]; intros Hall; [reflexivity|].
  cbn [remove_disabled].
  destruct (Hall key value (or_introl eq_refl)) as [Hd Hn].
  unfold disabled in Hd. apply orb_false_iff in Hd as [Hd Hlen]. rewrite Hd.
  destruct (length_prop value) as [len|] eqn:Hl.
  - rewrite Hlen. apply IH. intros k v Hin. apply (Hall k v). now right.
  - apply nullish_length in Hl. congruence.
Qed.

Section Normalisation.

Variable cfg : Config.
Variable RULES : Rules.

(** The actions as lines 84-90 leave them, before the loop of lines 94-98. *)
Lemma before_the_loop (actions0 : object) :
  exists pre,
    normalize cfg RULES actions0 = remove_disabled (entries pre) pre /\
    (forall k v, In (k, v) actions0 -> examined cfg RULES k -> In (k, v) pre) /\
    (forall k v, In (k, v) pre ->
                 (In (k, v) actions0 /\ examined cfg RULES k) \/
                 (k, v) = ("_resign", VNumber (Num 1))).
Proof.
  unfold normalize. cbv zeta.
  set (o1 := if (NO_UNDO cfg && has_key "undo" actions0)%bool
             then delete "undo" actions0 else actions0).
  assert (H1 : forall kv, In kv o1 <->
                          In kv actions0 /\ (NO_UNDO cfg = true -> fst kv <> "undo")).
  { intros kv. unfold o1. destruct (NO_UNDO cfg) eqn:Hu; cbn [andb].
    - destruct (has_key "undo" actions0) eqn:Hk.
      + rewrite in_delete. tauto.
      + split; [|tauto]. intros Hin. split; [assumption|]. intros _ Heq.
        destruct kv as [k v]. cbn in Heq. subst k.
        assert (has_key "undo" actions0 = true) by (apply has_key_in; eauto).
        congruence.
    - split; [|tauto]. intros Hin. split; [assumption|discriminate]. }
  eexists. split; [reflexivity|]. unfold examined. split.
  - intros k v Hin [Hu Hres].
    assert (Ho1 : In (k, v) o1) by (apply H1; now split).
    destruct (resign RULES) as [f|] eqn:Hr; [|assumption].
    destruct (NO_RESIGN cfg) eqn:Hn; cbn [negb]; [assumption|].
    apply in_set_other; [assumption|]. cbn [fst]. apply Hres; [reflexivity|discriminate].
  - intros k v Hin.
    destruct (resign RULES) as [f|] eqn:Hr.
    + destruct (NO_RESIGN cfg) eqn:Hn; cbn [negb] in Hin.
      * apply H1 in Hin as [Hin Hu]. left. split; [assumption|].
        split; [assumption|discriminate].
      * apply in_set in Hin as [Heq|[Hin Hk]]; [now right|].
        apply H1 in Hin as [Hin Hu]. left. split; [assumption|].
        split; [assumption|]. intros _ _. exact Hk.
    + apply H1 in Hin as [Hin Hu]. left. split; [assumption|].
      split; [assumption|]. intros _ Hres. congruence.
Qed.

(** X5. Normalisation throws exactly when a descriptor that the loop gets
    to see is [undefined] or [null]: one of an action other than an [undo]
    that [NO_UNDO] removes and a [_resign] that the driver overwrites. *)
Theorem normalize_throws_on_nullish_descriptors (actions0 : object) :
  (exists e, normalize cfg RULES actions0 = inl e) <->
  (exists k v, In (k, v) actions0 /\ is_nullish v = true /\ examined cfg RULES k).
Proof.
  destruct (before_the_loop actions0) as (pre & -> & Hto & Hfrom).
  rewrite remove_disabled_throws. unfold entries.
  split.
  - intros (k & v & Hin & Hv). exists k, v.
    apply Hfrom in Hin as [[Hin Hex]|Heq]; [auto|]. inv Heq. discriminate.
  - intros (k & v & Hin & Hv & Hex). exists k, v. auto.
Qed.

(** X6. Normalisation removes nothing else: an action of the view none of
    whose descriptors is disabled is in the normalised set with its
    descriptor, unless it is an [undo] that [NO_UNDO] removes or a
    [_resign] that the driver overwrites. *)
Theorem normalize_keeps_enabled_actions (actions0 actions : object) k v :
  normalize cfg RULES actions0 = inr actions ->
  In (k, v) actions0 ->
  (forall v', In (k, v') actions0 -> disabled v' = false) ->
  examined cfg RULES k ->
  In (k, v) actions.
Proof.
  intros Hn Hin Hall Hex.
  destruct (before_the_loop actions0) as (pre & Heq & Hto & Hfrom).
  rewrite Heq in Hn. apply remove_disabled_filter in Hn. subst actions.
  apply filter_In. split.
  - auto.
  - unfold kept. apply negb_true_iff.
    destruct (existsb _ _) eqn:Hx; [|reflexivity].
    apply existsb_exists in Hx as [[k' v'] [Hin' Hk]]. cbn [fst snd] in Hk.
    apply andb_true_iff in Hk as [Hk Hd]. apply String.eqb_eq in Hk. subst k'.
    unfold entries in Hin'. apply Hfrom in Hin' as [[Hin' _]|Heq'].
    + rewrite (Hall _ Hin') in Hd. discriminate.
    + inv Heq'. discriminate.
Qed.

(** X7. Normalising a normalised set of actions changes nothing: a view
    that the rules module hands out again after the driver has normalised
    it in place is normalised to the same set. *)
Theorem normalize_is_idempotent (actions0 actions : object) :
  normalize cfg RULES actions0 = inr actions ->
  normalize cfg RULES actions = inr actions.
Proof.
  intros Hn.
  destruct (before_the_loop actions0) as (pre & Heq & Hto & Hfrom).
  assert (Hsub : forall k v, In (k, v) actions -> In (k, v) pre).
  { intros k v Hin. rewrite Heq in Hn. apply remove_disabled_filter in Hn.
    subst actions. now apply filter_In in Hin. }
  assert (Hclean : forall k v, In (k, v) actions ->
                               disabled v = false /\ is_nullish v = false).
  { intros k v Hin. split; [eauto using normalize_enabled|].
    destruct (is_nullish v) eqn:Hv; [|reflexivity]. exfalso.
    assert (Hthrow : exists e, remove_disabled (entries pre) pre = inl e)
      by (apply remove_disabled_throws; eauto).
    destruct Hthrow as [e He]. congruence. }
  unfold normalize. cbv zeta.
  assert (Hundo : (NO_UNDO cfg && has_key "undo" actions)%bool = false).
  { destruct (NO_UNDO cfg) eqn:Hu; [|reflexivity]. cbn [andb].
    destruct (has_key "undo" actions) eqn:Hk; [|reflexivity].
    apply has_key_in in Hk as [v Hin].
    apply Hsub, Hfrom in Hin as [[_ [Hne _]]|Heq']; [|discriminate].
    now specialize (Hne Hu). }
  rewrite Hundo.
  assert (Hresign : match resign RULES with
                    | Some _ => if negb (NO_RESIGN cfg)
                                then set "_resign" (VNumber (Num 1)) actions
                                else actions
                    | None => actions
                    end = actions).
  { destruct (resign RULES) as [f|] eqn:Hr; [|reflexivity].
    destruct (NO_RESIGN cfg) eqn:Hno; [reflexivity|]. cbn [negb].
    assert (Hsome : resign RULES <> None) by congruence.
    apply set_noop.
    - apply has_key_in. eauto using normalize_resign.
    - intros v' Hin. eauto using normalize_resign_only. }
  rewrite Hresign. now apply remove_disabled_noop.
Qed.

End Normalisation.

(** ** Runs *)

Section Runs.

Variable cfg : Config.
Variable P : Provider.
Variable RULES : Rules.
Variable random : Random.

Lemma fuzz_good input r :
  ProviderOK P -> RandomOK random ->
  fuzz cfg P RULES random input = Some r ->
  Forall (good_event cfg RULES) (run_trace r).
Proof.
  intros HP HR Hrun. unfold fuzz, fuzz_within in Hrun.
  destruct (start cfg P RULES random input) as [[gs l]|r0] eqn:Hs.
  - apply (loop_good cfg P RULES random (max_turns cfg) gs l r HP HR); [|assumption].
    unfold start in Hs. cbv zeta in Hs.
    repeat split_match_in Hs; inv Hs. cbn [l_trace].
    repeat (apply Forall_cons; [exact I|]). apply Forall_nil.
  - inv Hrun. unfold start in Hs. cbv zeta in Hs.
    repeat split_match_in Hs; inv Hs; cbn [run_trace];
      repeat (apply Forall_cons; [exact I|]); apply Forall_nil.
Qed.

(** A run that went through [n] turns and is stopped by the next. *)
Lemma fuzz_after_turns input gs (l0 l : Loop P) n r :
  start cfg P RULES random input = Next (gs, l0) ->
  turns cfg P RULES random n gs l0 = Some l ->
  turn cfg P RULES random gs l = Stop r ->
  fuzz cfg P RULES random input = Some r.
Proof.
  intros Hs Hn Ht. unfold fuzz, fuzz_within. rewrite Hs.
  assert (Hfuel : (n < max_turns cfg)%nat).
  { unfold max_turns. destruct n as [|n]; [lia|].
    apply turns_step in Hn as Hstep. apply turns_step_bound in Hn.
    apply start_step in Hs as (Hs0 & _). lia. }
  replace (max_turns cfg) with (n + S (max_turns cfg - S n))%nat by lia.
  rewrite (loop_turns cfg P RULES random n _ gs l0 l Hn).
  cbn [loop]. now rewrite Ht.
Qed.

(** X1. The [while (true)] loop ends: [fuzz] returns a run for every input,
    in either mode, after at most [MAX_STEPS + 2] turns (one when
    [MAX_STEPS] is negative), and a larger allowance of turns gives the same
    run. *)
Theorem fuzz_returns_within_max_turns input n :
  exists r,
    fuzz cfg P RULES random input = Some r /\
    fuzz_within cfg P RULES random (max_turns cfg + n) input = Some r /\
    max_turns cfg = S (Z.to_nat (MAX_STEPS cfg + 1)).
Proof.
  destruct (fuzz_returns cfg P RULES random input) as [r Hr].
  exists r. split; [assumption|]. split; [|reflexivity].
  apply fuzz_within_more_fuel; [assumption|lia].
Qed.

Lemma decide_return gs (l : Loop P) r v :
  decide cfg P RULES random gs l = Stop r ->
  outcome r = Return v ->
  (v = minus_one /\ RND cfg = false) \/
  (v = VUndefined /\ st_state (l_state l) = VString "game_over").
Proof.
  unfold decide. cbv zeta. intros H Ho.
  repeat split_match_in H; inv H; cbn [finish outcome] in Ho;
    try discriminate Ho; inv Ho.
  - left. split; [reflexivity|].
    destruct (RND cfg); [discriminate|reflexivity].
  - right. split; [reflexivity|].
    destruct (st_state (l_state l)); try discriminate.
    f_equal. now apply String.eqb_eq.
  - right. split; [reflexivity|].
    destruct (st_state (l_state l)); try discriminate.
    f_equal. now apply String.eqb_eq.
Qed.

(** X2. [fuzz] returns normally in two cases only: -1, in deterministic mode
    (so never in random mode), and [undefined], with the game state saying
    "game_over".  In both nothing was printed and [crash-state.json] was
    not written. *)
Theorem normal_return_means_game_over input r v :
  fuzz cfg P RULES random input = Some r ->
  outcome r = Return v ->
  ((v = minus_one /\ RND cfg = false) \/
   (v = VUndefined /\
    exists state, run_state r = Some state /\
                  st_state state = VString "game_over")) /\
  console (run_world r) = [] /\
  crash_state_json (run_world r) = None.
Proof.
  intros Hrun Ho.
  pose proof Hrun as Hrun'. unfold fuzz, fuzz_within in Hrun'.
  apply fuzz_stopped in Hrun as [(Hw & Hnone & _)|(gs & l & [Hc1 Hc2] & Ht & Hs)].
  - rewrite Hw. split; [|split; reflexivity].
    destruct (start cfg P RULES random input) as [[gs l]|r0] eqn:Hst.
    + exfalso. apply start_step in Hst as (_ & Hw0 & _).
      apply loop_last_turn in Hrun' as (n & l' & _ & Ht & _).
      apply turn_stop_step in Ht as (_ & Hstate & _). congruence.
    + inv Hrun'. unfold start in Hst. cbv zeta in Hst.
      repeat split_match_in Hst; inv Hst; cbn [outcome] in Ho; inv Ho.
      left. split; [reflexivity|]. destruct (RND cfg); [discriminate|reflexivity].
  - split.
    + pose proof (turn_stop_step _ _ _ _ _ _ _ Ht) as (_ & Hstate & _).
      unfold turn in Ht.
      destruct (decide cfg P RULES random gs l) as [c|r'] eqn:Hd.
      * destruct (apply_action P RULES (l_state l) c); inv Ht.
        cbn [finish outcome] in Ho. discriminate.
      * inv Ht. destruct (decide_return _ _ _ _ Hd Ho) as [?|[-> Hover]]; [now left|].
        right. eauto.
    + destruct Hs as [(Hcon & Hfile & _)|(active & v' & _ & Hcase)]; [split; congruence|].
      exfalso.
      destruct Hcase as [[_ [[m Hm]|Hm]]|[_ [Hm|[[m Hm]|[e Hm]]]]]; congruence.
Qed.

Lemma normalize_no_undo (actions0 actions : object) :
  NO_UNDO cfg = true ->
  normalize cfg RULES actions0 = inr actions ->
  ~ In "undo" (keys actions).
Proof.
  intros Hu Hn Hin. apply in_map_iff in Hin as [[k v] [Hk Hin]]. cbn in Hk. subst k.
  destruct (before_the_loop cfg RULES actions0) as (pre & Heq & _ & Hfrom).
  rewrite Heq in Hn. apply remove_disabled_filter in Hn. subst actions.
  apply filter_In in Hin as [Hin _].
  apply Hfrom in Hin as [[_ [Hne _]]|Heq']; [|discriminate].
  now apply Hne.
Qed.

(** X17. With [NO_UNDO] set no run ever picks the action [undo], whatever
    the views of the rules module offer. *)
Theorem undo_is_never_picked input r available :
  ProviderOK P ->
  RandomOK random ->
  NO_UNDO cfg = true ->
  fuzz cfg P RULES random input = Some r ->
  ~ In (PickedAction available (VString "undo")) (run_trace r).
Proof.
  intros HP HR Hu Hrun Hin.
  pose proof (fuzz_good input r HP HR Hrun) as Hgood.
  rewrite Forall_forall in Hgood. specialize (Hgood _ Hin).
  destruct Hgood as ([actions0 Hn] & k & Heq & Hk & _). inv Heq.
  exact (normalize_no_undo actions0 available Hu Hn Hk).
Qed.

(** *** Runs that end after some turns *)

Lemma turns_accepted n gs (l l' : Loop P) :
  turns cfg P RULES random n gs l = Some l' ->
  accepted (l_trace l') = accepted (l_trace l) + Z.of_nat n.
Proof.
  revert l. induction n as [|n IH]; intros l H; cbn [turns] in H.
  - inv H. lia.
  - destruct (turn cfg P RULES random gs l) as [l1|] eqn:Ht; [|discriminate].
    apply turn_next_accepted in Ht. apply IH in H. lia.
Qed.

Lemma turn_no_actions gs (l : Loop P) :
  ProviderOK P -> roles RULES <> [] ->
  RND cfg = true \/ 16 <= remainingBytes P (provider (l_data l)) ->
  l_step l <= MAX_STEPS cfg ->
  is_string (st_state (l_state l)) "game_over" = false ->
  (forall active, view_actions (view RULES (l_state l) active) = None) ->
  exists active tr,
    turn cfg P RULES random gs l
    = Stop (finish (Throw (NoMoreActionsError "No actions defined"))
              (l_state l) (l_step l)
              (log_crash gs (l_state l) (view RULES (l_state l) active)
                 (l_step l) active VUndefined VUndefined (l_world l))
              tr).
Proof.
  intros HP Hroles Hrem Hstep Hplay Hview. unfold turn, decide. cbv zeta.
  assert (Hguard : (negb (RND cfg)
                    && (remainingBytes P (provider (l_data l)) <? 16))%bool = false).
  { destruct Hrem as [->|Hrem]; [reflexivity|].
    destruct (Z.ltb_spec (remainingBytes P (provider (l_data l))) 16); [lia|].
    apply andb_false_r. }
  rewrite Hguard.
  destruct (Z.gtb_spec (l_step l) (MAX_STEPS cfg)); [lia|].
  rewrite Hplay.
  destruct (is_string (st_active (l_state l)) "Both"
            || is_string (st_active (l_state l)) "All")%bool.
  - destruct (pick_array_returns cfg P random (l_data l) (roles RULES) HP Hroles)
      as (v & d & ->).
    rewrite Hview. eauto.
  - rewrite Hview. eauto.
Qed.

(** X8. When a game that is not over comes, after any number of accepted
    actions, to a state whose views have no [actions], the run throws
    [NoMoreActionsError] with "No actions defined"; the dump shows that
    state, the step counter (the number of actions accepted so far) and the
    view as the rules module returned it. *)
Theorem missing_actions_stop_the_run input gs (l0 l : Loop P) n :
  ProviderOK P ->
  roles RULES <> [] ->
  start cfg P RULES random input = Next (gs, l0) ->
  turns cfg P RULES random n gs l0 = Some l ->
  RND cfg = true \/ 16 <= remainingBytes P (provider (l_data l)) ->
  Z.of_nat n <= MAX_STEPS cfg ->
  is_string (st_state (l_state l)) "game_over" = false ->
  (forall active, view_actions (view RULES (l_state l) active) = None) ->
  exists r active,
    fuzz cfg P RULES random input = Some r /\
    outcome r = Throw (NoMoreActionsError "No actions defined") /\
    run_step r = Z.of_nat n /\
    accepted (run_trace r) = Z.of_nat n /\
    dumped (run_world r) (l_state l) (Z.of_nat n) active
      (view RULES (l_state l) active).
Proof.
  intros HP Hroles Hs Hn Hrem Hmax Hplay Hview.
  pose proof (start_step _ _ _ _ _ _ _ Hs) as (Hs0 & Hw0 & Ha0).
  pose proof (turns_step _ _ _ _ _ _ _ _ Hn) as Hstep. rewrite Hs0 in Hstep.
  cbn in Hstep.
  assert (Hclean : clean (l_world l)).
  { apply (turns_clean cfg P RULES random n gs l0); [|assumption].
    rewrite Hw0. now split. }
  destruct (turn_no_actions gs l HP Hroles Hrem) as (active & tr & Ht); auto; [lia|].
  pose proof (turn_stop_step _ _ _ _ _ _ _ Ht) as (_ & _ & Hacc).
  cbn [finish run_trace] in Hacc.
  pose proof (turns_accepted _ _ _ _ Hn) as Hacc_l.
  eexists _, active. split; [exact (fuzz_after_turns input gs l0 l n _ Hs Hn Ht)|].
  cbn [finish outcome run_step run_world run_trace].
  rewrite Hstep. repeat split; try lia.
  now apply log_crash_dumped.
Qed.

(** X9. A game that is over after any number of accepted actions within
    the bound makes [fuzz] return [undefined]: nothing is thrown or
    dumped, and the run ends with the state of the finished game and the
    number of accepted actions as its step counter. *)
Theorem finished_game_returns input gs (l0 l : Loop P) n :
  ProviderOK P ->
  roles RULES <> [] ->
  start cfg P RULES random input = Next (gs, l0) ->
  turns cfg P RULES random n gs l0 = Some l ->
  16 <= remainingBytes P (provider (l_data l)) ->
  Z.of_nat n <= MAX_STEPS cfg ->
  st_state (l_state l) = VString "game_over" ->
  exists r,
    fuzz cfg P RULES random input = Some r /\
    outcome r = Return VUndefined /\
    run_step r = Z.of_nat n /\
    run_state r = Some (l_state l) /\
    console (run_world r) = [] /\
    crash_state_json (run_world r) = None.
Proof.
  intros HP Hroles Hs Hn Hrem Hmax Hover.
  pose proof (start_step _ _ _ _ _ _ _ Hs) as (Hs0 & Hw0 & Ha0).
  pose proof (turns_step _ _ _ _ _ _ _ _ Hn) as Hstep. rewrite Hs0 in Hstep.
  cbn in Hstep.
  assert (Hclean : clean (l_world l)).
  { apply (turns_clean cfg P RULES random n gs l0); [|assumption].
    rewrite Hw0. now split. }
  destruct (turn_game_over cfg P RULES random gs l HP Hroles Hrem)
    as (tr & Ht & _); [lia|assumption|].
  eexists. split; [exact (fuzz_after_turns input gs l0 l n _ Hs Hn Ht)|].
  cbn [finish outcome run_step run_world run_state].
  destruct Hclean as [Hc1 Hc2]. repeat split; auto; lia.
Qed.

(** *** The errors of a turn *)

Lemma index_keys_pass idx : existsb isNaN_string (map index_key idx) = false.
Proof.
  induction idx as [|i idx IH]; cbn [map existsb]; [reflexivity|].
  now rewrite index_key_is_a_number, IH.
Qed.

Lemma named_key args :
  is_pool args = true ->
  existsb isNaN_string (for_in_keys args) = true ->
  exists props key,
    args = VObject props /\ In key (keys props) /\ isNaN_string key = true.
Proof.
  intros Hpool Hnan. destruct args; try discriminate Hpool.
  - cbn [for_in_keys] in Hnan. now rewrite index_keys_pass in Hnan.
  - cbn [for_in_keys] in Hnan. now rewrite index_keys_pass in Hnan.
  - cbn [for_in_keys] in Hnan. apply existsb_exists in Hnan as (key & Hin & Hk).
    eauto.
Qed.

Lemma decide_invalid gs (l : Loop P) r m :
  decide cfg P RULES random gs l = Stop r ->
  outcome r = Throw (InvalidActionArgument m) ->
  exists tr available chosen props key,
    run_trace r = tr ++ [PickedAction available chosen] /\
    prop (VObject available) (ToString chosen) = VObject props /\
    In key (keys props) /\ isNaN_string key = true.
Proof.
  unfold decide. cbv zeta. intros H Ho.
  repeat split_match_in H; inv H; cbn [finish outcome run_trace] in *;
    try discriminate Ho.
  all: match goal with
       | Hp : is_pool _ = true, Hn : existsb _ _ = true |- _ =>
           destruct (named_key _ Hp Hn) as (props & key & Heq & Hin & Hk)
       end;
       do 5 eexists; split; [reflexivity|]; eauto.
Qed.

(** X10. [InvalidActionArgument] is thrown only for a descriptor that is a
    plain object with a key that is not a number: the last decision of
    such a run is the pick of an action with such a descriptor.  A string
    or an array is never refused, whatever it holds. *)
Theorem invalid_argument_means_a_named_key input r m :
  fuzz cfg P RULES random input = Some r ->
  outcome r = Throw (InvalidActionArgument m) ->
  exists tr available chosen props key,
    run_trace r = tr ++ [PickedAction available chosen] /\
    prop (VObject available) (ToString chosen) = VObject props /\
    In key (keys props) /\ isNaN_string key = true.
Proof.
  intros Hrun Ho.
  apply fuzz_stopped in Hrun
    as [(_ & _ & [[v Hv]|[e He]])|(gs & l & _ & Ht & _)]; try congruence.
  unfold turn in Ht.
  destruct (decide cfg P RULES random gs l) as [c|r'] eqn:Hd.
  - destruct (apply_action P RULES (l_state l) c) as [e|]; inv Ht.
    cbn [finish outcome] in Ho. destruct e as [| |[]]; discriminate.
  - inv Ht. eauto using decide_invalid.
Qed.

(** *** What a run accepts *)

Lemma decide_trace gs (l : Loop P) :
  exists suffix,
    Forall is_decision suffix /\
    match decide cfg P RULES random gs l with
    | Next c => ch_trace c = l_trace l ++ suffix
    | Stop r => run_trace r = l_trace l ++ suffix
    end.
Proof.
  unfold decide. cbv zeta.
  repeat split_match_goal; cbn [finish run_trace ch_trace];
    rewrite <- ?app_assoc;
    eexists; (split; [|first [reflexivity | symmetry; apply app_nil_r]]);
    cbn [app]; repeat (apply Forall_cons; [exact I|]); apply Forall_nil.
Qed.

Lemma turn_trace (Q : event -> Prop) gs (l : Loop P) :
  (forall e, is_decision e -> Q e) ->
  (forall c state',
      decide cfg P RULES random gs l = Next c ->
      apply_action P RULES (l_state l) c = inr state' ->
      Q (Accepted (ch_action c) (ch_arg c))) ->
  Forall Q (l_trace l) ->
  match turn cfg P RULES random gs l with
  | Next l' => Forall Q (l_trace l')
  | Stop r => Forall Q (run_trace r)
  end.
Proof.
  intros Hdec Hacc Hl. unfold turn.
  destruct (decide_trace gs l) as (suffix & Hsuf & Htr).
  assert (Hall : Forall Q (l_trace l ++ suffix)).
  { apply Forall_app. split; [assumption|].
    eapply Forall_impl; [|exact Hsuf]. exact Hdec. }
  destruct (decide cfg P RULES random gs l) as [c|r] eqn:Hd.
  - destruct (apply_action P RULES (l_state l) c) as [e|state'] eqn:Ha;
      cbn [finish run_trace l_trace]; rewrite Htr; [assumption|].
    apply Forall_app. split; [assumption|].
    apply Forall_cons; [|apply Forall_nil]. eauto.
  - now rewrite Htr.
Qed.

(** X11. When the rules module has no [resign], no run has an accepted
    [_resign]: an action of that name, which only a view can then offer, is
    applied through [RULES.resign] all the same and so fails. *)
Theorem resign_needs_the_operation input r arg :
  resign RULES = None ->
  fuzz cfg P RULES random input = Some r ->
  ~ In (Accepted (VString "_resign") arg) (run_trace r).
Proof.
  intros Hres Hrun.
  set (Q := fun e => forall x, e <> Accepted (VString "_resign") x).
  assert (Hturn : forall gs l,
             Forall Q (l_trace l) ->
             match turn cfg P RULES random gs l with
             | Next l' => Forall Q (l_trace l')
             | Stop r => Forall Q (run_trace r)
             end).
  { intros gs l. apply turn_trace.
    - intros e He x ->. exact He.
    - intros c state' _ Ha x Heq. inv Heq.
      unfold apply_action in Ha.
      match goal with H : ch_action c = _ |- _ => rewrite H in Ha end.
      cbn in Ha. rewrite Hres in Ha. discriminate. }
  assert (Hloop : forall fuel gs l r',
             Forall Q (l_trace l) ->
             loop cfg P RULES random fuel gs l = Some r' ->
             Forall Q (run_trace r')).
  { induction fuel as [|fuel IH]; intros gs l r' Hl H; [discriminate|].
    cbn [loop] in H. specialize (Hturn gs l Hl).
    destruct (turn cfg P RULES random gs l); [eauto|now inv H]. }
  assert (Hall : Forall Q (run_trace r)).
  { unfold fuzz, fuzz_within in Hrun.
    destruct (start cfg P RULES random input) as [[gs l]|r0] eqn:Hs.
    - apply (Hloop (max_turns cfg) gs l r); [|assumption].
      unfold start in Hs. cbv zeta in Hs.
      repeat split_match_in Hs; inv Hs. cbn [l_trace].
      repeat (apply Forall_cons; [intros x; discriminate|]). apply Forall_nil.
    - inv Hrun. unfold start in Hs. cbv zeta in Hs.
      repeat split_match_in Hs; inv Hs; cbn [run_trace];
        repeat (apply Forall_cons; [intros x; discriminate|]); apply Forall_nil. }
  intros Hin. rewrite Forall_forall in Hall. exact (Hall _ Hin arg eq_refl).
Qed.

(** *** The hook *)

Lemma decide_next_choice gs (l : Loop P) c :
  decide cfg P RULES random gs l = Next c ->
  view_actions (ch_view c) = Some (ch_actions c) /\
  ch_args c = prop (VObject (ch_actions c)) (ToString (ch_action c)).
Proof.
  unfold decide. cbv zeta. intros H.
  repeat split_match_in H; inv H; cbn; auto.
Qed.

Lemma decide_stop_calls gs (l : Loop P) r :
  decide cfg P RULES random gs l = Stop r ->
  fuzz_log_calls (run_world r) = fuzz_log_calls (l_world l).
Proof.
  unfold decide. cbv zeta. intros H.
  repeat split_match_in H; inv H; reflexivity.
Qed.

Lemma turn_calls gs (l : Loop P) :
  match turn cfg P RULES random gs l with
  | Next l' =>
      exists c,
        decide cfg P RULES random gs l = Next c /\
        fuzz_log_calls (l_world l')
        = fuzz_log_calls (l_world l)
          ++ (if fuzz_log RULES then [hook_context (l_state l) c] else [])
  | Stop r =>
      (decide cfg P RULES random gs l = Stop r /\
       fuzz_log_calls (run_world r) = fuzz_log_calls (l_world l))
      \/
      (exists c e,
          decide cfg P RULES random gs l = Next c /\
          apply_action P RULES (l_state l) c = inl e /\
          outcome r = Throw (rules_crash e) /\
          crash_state_json (run_world r) = Some (l_state l) /\
          fuzz_log_calls (run_world r)
          = fuzz_log_calls (l_world l)
            ++ (if fuzz_log RULES then [hook_context (l_state l) c] else []))
  end.
Proof.
  unfold turn.
  destruct (decide cfg P RULES random gs l) as [c|r] eqn:Hd.
  - assert (Hcalls : fuzz_log_calls (call_fuzz_log P RULES (l_state l) c (l_world l))
                     = fuzz_log_calls (l_world l)
                       ++ (if fuzz_log RULES then [hook_context (l_state l) c] else [])).
    { unfold call_fuzz_log. destruct (fuzz_log RULES); [reflexivity|].
      now rewrite app_nil_r. }
    destruct (apply_action P RULES (l_state l) c) as [e|state'] eqn:Ha.
    + right. exists c, e. cbn [finish outcome run_world log_crash
                                crash_state_json fuzz_log_calls]. auto.
    + exists c. cbn [l_world]. auto.
  - left. split; [reflexivity|]. exact (decide_stop_calls _ _ _ Hd).
Qed.

(** A turn that the driver's own checks stop is no failed application. *)
Lemma decide_stop_not_failed gs (l : Loop P) r :
  clean (l_world l) ->
  decide cfg P RULES random gs l = Stop r ->
  ~ failed_application r.
Proof.
  intros [_ Hfile] H [[e He] Hcrash]. unfold decide in H. cbv zeta in H.
  repeat split_match_in H; inv H;
    cbn [finish outcome run_world log_crash crash_state_json] in *;
    try contradiction;
    destruct e as [| |[]]; discriminate He.
Qed.

(** The turns that went round the loop, seen from the last. *)
Lemma turns_last n gs (l0 l' : Loop P) :
  turns cfg P RULES random (S n) gs l0 = Some l' ->
  exists l, turns cfg P RULES random n gs l0 = Some l /\
            turn cfg P RULES random gs l = Next l'.
Proof.
  revert l0. induction n as [|n IH]; intros l0 H; cbn [turns] in H;
    destruct (turn cfg P RULES random gs l0) as [l1|] eqn:Ht; try discriminate.
  - inv H. exists l0. split; [reflexivity|assumption].
  - destruct (IH l1) as (l & Hn & Hlast); [exact H|].
    exists l. split; [|assumption]. cbn [turns]. now rewrite Ht.
Qed.

(** The calls of the hook after [n] turns: none without a hook; with one,
    call number [i] is the context of turn number [i]. *)
Lemma turns_calls n gs (l0 l : Loop P) :
  fuzz_log_calls (l_world l0) = [] ->
  turns cfg P RULES random n gs l0 = Some l ->
  (fuzz_log RULES = false -> fuzz_log_calls (l_world l) = []) /\
  (fuzz_log RULES = true ->
   List.length (fuzz_log_calls (l_world l)) = n /\
   forall i c',
     nth_error (fuzz_log_calls (l_world l)) i = Some c' ->
     exists li c,
       turns cfg P RULES random i gs l0 = Some li /\
       decide cfg P RULES random gs li = Next c /\
       c' = hook_context (l_state li) c).
Proof.
  intros H0. revert l. induction n as [|n IH]; intros l Hn.
  - cbn in Hn. inv Hn. rewrite H0. split; [reflexivity|].
    intros _. split; [reflexivity|]. intros [|i] c' Hi; discriminate.
  - apply turns_last in Hn as (lm & Hm & Hlast).
    destruct (IH lm Hm) as [Hoff Hon].
    pose proof (turn_calls gs lm) as Hc. rewrite Hlast in Hc.
    destruct Hc as (c & Hd & Hcalls). rewrite Hcalls. split.
    + intros Hf. rewrite Hf, (Hoff Hf). reflexivity.
    + intros Hf. rewrite Hf. destruct (Hon Hf) as [Hlen Hnth].
      split; [rewrite length_app; cbn [List.length]; lia|].
      intros i c' Hi.
      destruct (Nat.lt_ge_cases i (List.length (fuzz_log_calls (l_world lm))))
        as [Hlt|Hge].
      * rewrite nth_error_app1 in Hi by assumption. eauto.
      * rewrite nth_error_app2 in Hi by assumption.
        destruct (i - List.length (fuzz_log_calls (l_world lm)))%nat as [|j] eqn:Hj.
        -- assert (Hin : i = n) by lia. rewrite Hin.
           cbn in Hi. injection Hi as <-. exists lm, c. auto.
        -- destruct j; discriminate.
Qed.

(** X12. Without a hook [fuzz_log] nothing is called.  With one it is
    called once in every turn that gets to apply an action: the number of
    calls is the step counter of the run, and one more exactly in a run
    that ended in a failed application; and call number [i] is given the
    context of turn number [i]: the state that turn started from, the
    view of that state with its actions normalised, the keys of those
    actions, and the action, descriptor and argument that the turn
    settled. *)
Theorem hook_is_called_once_a_turn input r :
  fuzz cfg P RULES random input = Some r ->
  (fuzz_log RULES = false -> fuzz_log_calls (run_world r) = []) /\
  (fuzz_log RULES = true ->
   (failed_application r ->
    Z.of_nat (List.length (fuzz_log_calls (run_world r))) = run_step r + 1) /\
   (~ failed_application r ->
    Z.of_nat (List.length (fuzz_log_calls (run_world r))) = run_step r) /\
   forall i c',
     nth_error (fuzz_log_calls (run_world r)) i = Some c' ->
     exists gs l0 li c,
       start cfg P RULES random input = Next (gs, l0) /\
       turns cfg P RULES random i gs l0 = Some li /\
       decide cfg P RULES random gs li = Next c /\
       c' = hook_context (l_state li) c /\
       normalized_view cfg RULES (lc_state c') (ch_active c) (lc_view c') /\
       view_actions (lc_view c') = Some (ch_actions c) /\
       lc_actions c' = keys (ch_actions c) /\
       lc_args c' = prop (VObject (ch_actions c)) (ToString (lc_chosen_action c'))).
Proof.
  intros Hrun. unfold fuzz, fuzz_within in Hrun.
  destruct (start cfg P RULES random input) as [[gs l0]|r0] eqn:Hs.
  - pose proof (start_step _ _ _ _ _ _ _ Hs) as (Hs0 & Hw0 & _).
    apply loop_last_turn in Hrun as (n & l & Hn & Hlast & Hstep & _).
    rewrite Hs0 in Hstep. cbn in Hstep.
    assert (Hclean : clean (l_world l)).
    { apply (turns_clean cfg P RULES random n gs l0); [|assumption].
      rewrite Hw0. now split. }
    assert (H0 : fuzz_log_calls (l_world l0) = []) by now rewrite Hw0.
    destruct (turns_calls n gs l0 l H0 Hn) as [Hoff Hon].
    pose proof (turn_stop_step _ _ _ _ _ _ _ Hlast) as (Hrs & _ & _).
    assert (Hdescribe : forall li c,
               decide cfg P RULES random gs li = Next c ->
               normalized_view cfg RULES (l_state li) (ch_active c) (ch_view c) /\
               view_actions (ch_view c) = Some (ch_actions c) /\
               keys (ch_actions c) = keys (ch_actions c) /\
               ch_args c = prop (VObject (ch_actions c)) (ToString (ch_action c))).
    { intros li c Hd. destruct (decide_next_choice _ _ _ Hd) as [Hv Ha].
      split; [eauto using decide_next_view|auto]. }
    pose proof (turn_calls gs l) as Hc. rewrite Hlast in Hc.
    destruct Hc as [[Hd Hcalls]|(c & e & Hd & Ha & Ho & Hfile & Hcalls)].
    + pose proof (decide_stop_not_failed gs l r Hclean Hd) as Hnot.
      rewrite Hcalls. split; [assumption|]. intros Hf.
      destruct (Hon Hf) as [Hlen Hnth].
      split; [intros Hfailed; contradiction|].
      split; [intros _; lia|].
      intros i c' Hi. destruct (Hnth i c' Hi) as (li & c & Hi1 & Hi2 & ->).
      exists gs, l0, li, c. cbn [hook_context lc_state lc_view lc_actions
                                 lc_args lc_chosen_action].
      destruct (Hdescribe li c Hi2) as (? & ? & ? & ?). repeat split; auto.
    + assert (Hfailed : failed_application r).
      { split; [eauto|]. rewrite Hfile. discriminate. }
      rewrite Hcalls. split.
      * intros Hf. rewrite Hf, (Hoff Hf). reflexivity.
      * intros Hf. rewrite Hf. destruct (Hon Hf) as [Hlen Hnth].
        split; [intros _; rewrite length_app; cbn [List.length]; lia|].
        split; [intros Hnot; contradiction|].
        intros i c' Hi.
        assert (Hcase : exists li c0,
                   turns cfg P RULES random i gs l0 = Some li /\
                   decide cfg P RULES random gs li = Next c0 /\
                   c' = hook_context (l_state li) c0).
        { destruct (Nat.lt_ge_cases i (List.length (fuzz_log_calls (l_world l))))
            as [Hlt|Hge].
          - rewrite nth_error_app1 in Hi by assumption. eauto.
          - rewrite nth_error_app2 in Hi by assumption.
            destruct (i - List.length (fuzz_log_calls (l_world l)))%nat as [|j] eqn:Hj.
            + assert (Hin : i = n) by lia. rewrite Hin.
              cbn in Hi. injection Hi as <-. exists l, c. auto.
            + destruct j; discriminate. }
        destruct Hcase as (li & c0 & Hi1 & Hi2 & ->).
        exists gs, l0, li, c0. cbn [hook_context lc_state lc_view lc_actions
                                    lc_args lc_chosen_action].
        destruct (Hdescribe li c0 Hi2) as (? & ? & ? & ?). repeat split; auto.
  - inv Hrun. unfold start in Hs. cbv zeta in Hs.
    assert (Hnot : crash_state_json (run_world r) = None
                   /\ fuzz_log_calls (run_world r) = [] /\ run_step r = 0).
    { repeat split_match_in Hs; inv Hs; cbn; auto. }
    destruct Hnot as (Hfile & Hcalls & Hstep). rewrite Hcalls, Hstep.
    split; [reflexivity|]. intros _.
    split; [intros [_ Hcrash]; contradiction|].
    split; [reflexivity|]. intros [|i] c' Hi; discriminate.
Qed.

(** *** [pick], lines 19-26 *)

(** X13. [pick] on a non-empty array returns one of its elements in either
    mode and throws in neither; it uses up one value of [Math.random] in
    random mode and none in deterministic mode.  On an empty array random
    mode returns [undefined]. *)
Theorem pick_returns_an_element data l :
  ProviderOK P ->
  RandomOK random ->
  (l <> [] ->
   exists v data',
     pick cfg P random data (VArray l) = inr (v, data') /\
     In v l /\
     random_calls data' =
     (if RND cfg then S (random_calls data) else random_calls data)) /\
  (RND cfg = true ->
   pick cfg P random data (VArray []) = inr (VUndefined, next_random P data)).
Proof.
  intros HP HR. split.
  - intros Hl.
    destruct (pick_array_returns cfg P random data l HP Hl) as (v & data' & Hp).
    exists v, data'. split; [assumption|].
    split; [eauto using pick_array_member|].
    unfold pick, rnd in Hp. destruct (RND cfg).
    + cbn [length_prop] in Hp. now inv Hp.
    + destruct (pickValue P (provider data) (VArray l)) as [|[v' p]]; now inv Hp.
  - intros Hrnd. unfold pick, rnd. rewrite Hrnd. cbn [length_prop List.length].
    f_equal. f_equal. unfold elem.
    destruct (random (random_calls data) 1 (Z.of_nat 0) - 1 <? 0); [reflexivity|].
    now destruct (Z.to_nat _).
Qed.

(** *** Random mode *)

Section RandomMode.

Hypothesis random_mode : RND cfg = true.

Lemma pick_reprovide (p : fdp P) data a :
  pick cfg P random {| provider := p; random_calls := random_calls data |} a
  = match pick cfg P random data a with
    | inl e => inl e
    | inr (v, data') =>
        inr (v, {| provider := p; random_calls := random_calls data' |})
    end.
Proof.
  unfold pick, rnd. rewrite random_mode.
  destruct (length_prop a) as [[| | |[|n]| | |]|]; reflexivity.
Qed.

Lemma decide_reprovide (p : fdp P) gs l :
  decide cfg P RULES random gs (reprovide p l)
  = match decide cfg P RULES random gs l with
    | Next c => Next (reprovide_choice p c)
    | Stop r => Stop r
    end.
Proof.
  unfold decide, reprovide. cbv zeta. cbn [l_data l_state l_step l_world l_trace].
  rewrite random_mode. cbn [negb andb].
  repeat first [ reflexivity
               | rewrite pick_reprovide
               | split_match_goal ].
Qed.

Lemma turn_reprovide (p : fdp P) gs l :
  turn cfg P RULES random gs (reprovide p l)
  = match turn cfg P RULES random gs l with
    | Next l' => Next (reprovide p l')
    | Stop r => Stop r
    end.
Proof.
  unfold turn. rewrite decide_reprovide.
  destruct (decide cfg P RULES random gs l) as [c|r]; [|reflexivity].
  change (l_state (reprovide p l)) with (l_state l).
  change (apply_action P RULES (l_state l) (reprovide_choice p c))
    with (apply_action P RULES (l_state l) c).
  destruct (apply_action P RULES (l_state l) c); reflexivity.
Qed.

Lemma loop_reprovide (p : fdp P) fuel gs l :
  loop cfg P RULES random fuel gs (reprovide p l)
  = loop cfg P RULES random fuel gs l.
Proof.
  revert l. induction fuel as [|fuel IH]; intros l; [reflexivity|].
  cbn [loop]. rewrite turn_reprovide.
  destruct (turn cfg P RULES random gs l); auto.
Qed.

(** X3. In random mode the input buffer plays no part: two runs that get
    the same values from [Math.random] are the same whatever bytes they
    are given. *)
Theorem random_mode_ignores_the_input input1 input2 :
  fuzz cfg P RULES random input1 = fuzz cfg P RULES random input2.
Proof.
  unfold fuzz, fuzz_within.
  assert (Hstart : start cfg P RULES random input2
                   = match start cfg P RULES random input1 with
                     | Next (gs, l) => Next (gs, reprovide (FuzzedDataProvider P input2) l)
                     | Stop r => Stop r
                     end).
  { unfold start. cbv zeta. rewrite random_mode. cbn [negb andb].
    unfold rnd. rewrite random_mode. cbn [provider random_calls next_random].
    rewrite (pick_reprovide (FuzzedDataProvider P input2)
               {| provider := FuzzedDataProvider P input1; random_calls := 1 |}).
    destruct (pick cfg P random _ _) as [e|[v d]]; reflexivity. }
  rewrite Hstart.
  destruct (start cfg P RULES random input1) as [[gs l]|r]; [|reflexivity].
  symmetry. apply loop_reprovide.
Qed.

End RandomMode.

End Runs.

(** ** Loading the module, lines 6-17 *)

Lemma digit_is_no_prefix c :
  is_digit c = true -> is_char c "x" = false /\ is_char c "X" = false.
Proof.
  destruct c as [[] [] [] [] [] [] [] []]; vm_compute; intros H;
    try discriminate H; auto.
Qed.

(** The digits of a decimal numeral are read back as its number. *)
Lemma digits_prefix_uint d acc :
  0 <= acc ->
  digits_prefix 10 (list_ascii_of_string (NilEmpty.string_of_uint d)) (Some acc)
  = Some (Z.of_nat (Nat.of_uint_acc d (Z.to_nat acc))).
Proof.
  revert acc. induction d; intros acc Hacc;
    cbn [NilEmpty.string_of_uint list_ascii_of_string digits_prefix Nat.of_uint_acc];
    try (change (digit_value _) with (Some 0));
    try (change (digit_value _) with (Some 1));
    try (change (digit_value _) with (Some 2));
    try (change (digit_value _) with (Some 3));
    try (change (digit_value _) with (Some 4));
    try (change (digit_value _) with (Some 5));
    try (change (digit_value _) with (Some 6));
    try (change (digit_value _) with (Some 7));
    try (change (digit_value _) with (Some 8));
    try (change (digit_value _) with (Some 9));
    cbv iota beta;
    try (match goal with |- context [?k <? 10] => change (k <? 10) with true end;
         cbv iota; rewrite IHd by lia; rewrite Nat.tail_mul_spec;
         do 3 f_equal; lia).
  f_equal. lia.
Qed.

Lemma digit_value_decimal c :
  is_digit c = true -> exists d, digit_value c = Some d /\ (d <? 10) = true.
Proof.
  destruct c as [[] [] [] [] [] [] [] []]; vm_compute; intros H;
    try discriminate H; eauto.
Qed.

Lemma digits_prefix_start l :
  l <> [] -> forallb is_digit l = true ->
  digits_prefix 10 l None = digits_prefix 10 l (Some 0).
Proof.
  intros Hne Hall. destruct l as [|c l]; [congruence|].
  cbn [forallb] in Hall. apply andb_true_iff in Hall as [Hc _].
  destruct (digit_value_decimal c Hc) as (d & Hd & Hlt).
  cbn [digits_prefix]. now rewrite Hd, Hlt.
Qed.

Lemma parseInt_index_key n : parseInt (Some (index_key n)) = Some (Z.of_nat n).
Proof.
  destruct (index_key_digits n) as [Hne Hall].
  assert (Hval : digits_prefix 10 (list_ascii_of_string (index_key n)) None
                 = Some (Z.of_nat n)).
  { rewrite (digits_prefix_start _ Hne Hall).
    rewrite <- (DecimalNat.Unsigned.of_to n) at 2.
    unfold index_key, NilZero.string_of_uint, Nat.of_uint.
    destruct (Nat.to_uint n) eqn:Hu;
      try (rewrite <- Hu; now rewrite digits_prefix_uint by lia).
    reflexivity. }
  unfold parseInt.
  destruct (list_ascii_of_string (index_key n)) as [|c1 l1] eqn:Hl; [congruence|].
  pose proof Hall as Hc1. cbn [forallb] in Hc1. apply andb_true_iff in Hc1 as [Hc1 Hl1].
  destruct (digit_facts c1 Hc1) as (Hws & Hsign & _).
  rewrite (skip_none is_white_space c1 l1 Hws), Hsign.
  destruct l1 as [|c2 l2].
  - now rewrite Hval.
  - cbn [forallb] in Hl1. apply andb_true_iff in Hl1 as [Hc2 _].
    destruct (digit_is_no_prefix c2 Hc2) as [-> ->].
    rewrite andb_false_r. now rewrite Hval.
Qed.

(** X14. Whatever the environment, a module that loads has a rules file
    that is there and is not the empty name, and a [MAX_STEPS] that is not
    0: an unset, unreadable or zero [MAX_STEPS] all give 2048. *)
Theorem loaded_module_is_configured env existsSync logs file cfg :
  load env existsSync = (logs, inr (file, cfg)) ->
  existsSync file = true /\
  file <> "" /\
  MAX_STEPS cfg <> 0 /\
  (env "MAX_STEPS" = None \/ env "MAX_STEPS" = Some "0" ->
   MAX_STEPS cfg = 2048).
Proof.
  unfold load. cbv zeta. intros H.
  set (f := match env "RTT_RULES" with
            | Some "" | None => "rules.js"
            | Some file => file
            end) in *.
  destruct (existsSync f) eqn:Hex; cbn [negb] in H; inv H.
  split; [assumption|]. split.
  - unfold f. destruct (env "RTT_RULES") as [[|c s']|]; discriminate.
  - cbn [MAX_STEPS]. split.
    + destruct (parseInt (env "MAX_STEPS")) as [[|p|p]|]; discriminate.
    + intros [->| ->]; reflexivity.
Qed.

(** X15. A [MAX_STEPS] given as the decimal numeral of a positive number
    is loaded as that number.  The number is taken within the integers
    that JavaScript numbers hold exactly. *)
Theorem MAX_STEPS_is_read_back env n :
  (0 < n)%nat ->
  Z.of_nat n <= 2 ^ 53 ->
  env "MAX_STEPS" = Some (index_key n) ->
  MAX_STEPS (loaded_config env) = Z.of_nat n.
Proof.
  intros Hn _ Henv. unfold loaded_config, load. cbv zeta. cbn [snd negb MAX_STEPS].
  rewrite Henv, parseInt_index_key.
  destruct (Z.of_nat n) eqn:Hz; [lia|reflexivity|reflexivity].
Qed.

(** X16. With [MAX_STEPS] not set, no run of the loaded configuration
    accepts more than 2049 actions. *)
Theorem unset_MAX_STEPS_bounds_the_run env P RULES random input r :
  env "MAX_STEPS" = None ->
  fuzz (loaded_config env) P RULES random input = Some r ->
  run_step r = accepted (run_trace r) /\ 0 <= run_step r <= 2049.
Proof.
  intros Henv Hrun.
  assert (Hmax : MAX_STEPS (loaded_config env) = 2048).
  { unfold loaded_config, load. cbv zeta. cbn [snd negb MAX_STEPS].
    now rewrite Henv. }
  unfold fuzz, fuzz_within in Hrun.
  destruct (start (loaded_config env) P RULES random input) as [[gs l0]|r0] eqn:Hs.
  - apply start_step in Hs as (Hs0 & _ & Ha0).
    apply loop_last_turn in Hrun as (n & l' & Hn & Hlast & Hstep & Hacc).
    apply turn_stop_step in Hlast as (Hrs & _ & Hra).
    rewrite Hrs, Hra. split; [lia|].
    destruct n as [|n]; [lia|]. apply turns_step_bound in Hn. lia.
  - inv Hrun. unfold start in Hs. cbv zeta in Hs.
    repeat split_match_in Hs; inv Hs; cbn; lia.
Qed.

(** ** Dumps and errors *)

(** X4. An error of one of the four classes of the driver always comes
    with a dump of the state and step counter the run ended with, and a
    run that wrote [crash-state.json] ended in an error. *)
Theorem dump_goes_with_an_error cfg P RULES random input r :
  fuzz cfg P RULES random input = Some r ->
  (forall e, outcome r = Throw e -> classified e = true ->
             exists state active v,
               run_state r = Some state /\
               dumped (run_world r) state (run_step r) active v) /\
  (crash_state_json (run_world r) <> None -> exists e, outcome r = Throw e).
Proof.
  intros Hrun. split.
  - intros e He Hc. eauto using classified_error_is_dumped.
  - intros Hfile.
    apply fuzz_stopped in Hrun as [(Hw & _)|(gs & l & [_ Hcl] & _ & Hs)].
    + rewrite Hw in Hfile. now cbn in Hfile.
    + destruct Hs as [(_ & Hsame & _)|(active & v & _ & Hcase)]; [congruence|].
      destruct Hcase as [[_ [[m Hm]|Hm]]|[_ [Hm|[[m Hm]|[e Hm]]]]]; eauto.
Qed.

(** ** The further theorems at work *)

Lemma normal_return_means_game_over_witness :
  exists r,
    fuzz default_config ByteProvider.provider Games.finished lowest (zeros 32) = Some r /\
    console (run_world r) = [] /\ crash_state_json (run_world r) = None.
Proof.
  eexists. split; [vm_compute; reflexivity|].
  refine (proj2 (normal_return_means_game_over default_config ByteProvider.provider
                   Games.finished lowest (zeros 32) _ VUndefined _ _));
    vm_compute; reflexivity.
Defined.

Lemma random_mode_ignores_the_input_witness :
  fuzz random_config ByteProvider.provider Games.two_moves highest (zeros 0)
  = fuzz random_config ByteProvider.provider Games.two_moves highest (zeros 32).
Proof. apply random_mode_ignores_the_input. reflexivity. Defined.

Lemma dump_goes_with_an_error_witness :
  exists r e,
    fuzz default_config ByteProvider.provider Games.all_disabled lowest (zeros 32)
    = Some r /\ outcome r = Throw e.
Proof.
  edestruct (dump_goes_with_an_error default_config ByteProvider.provider
               Games.all_disabled lowest (zeros 32)) as [_ Hfile].
  - vm_compute. reflexivity.
  - destruct Hfile as [e He]; [vm_compute; discriminate|].
    eexists _, e. split; [reflexivity|exact He].
Defined.

Lemma undo_is_never_picked_witness :
  exists r,
    fuzz no_undo_config ByteProvider.provider MoreGames.offers_undo lowest (zeros 32)
    = Some r /\
    ~ In (PickedAction [("next", VNumber (Num 1))] (VString "undo")) (run_trace r).
Proof.
  eexists. split; [vm_compute; reflexivity|].
  apply (undo_is_never_picked no_undo_config ByteProvider.provider
           MoreGames.offers_undo lowest (zeros 32)).
  - exact byte_provider_ok.
  - exact lowest_ok.
  - reflexivity.
  - vm_compute. reflexivity.
Defined.

Lemma normalize_throws_on_nullish_descriptors_witness :
  exists e, normalize default_config Games.plain [("pass", VNull)] = inl e.
Proof.
  apply (proj2 (normalize_throws_on_nullish_descriptors default_config Games.plain
                  [("pass", VNull)])).
  exists "pass", VNull. split; [now left|]. split; [reflexivity|].
  split; intros; discriminate.
Defined.

Lemma normalize_keeps_enabled_actions_witness :
  In ("next", VNumber (Num 1))
    [("next", VNumber (Num 1)); ("_resign", VNumber (Num 1))].
Proof.
  apply (normalize_keeps_enabled_actions default_config Games.plain
           [("next", VNumber (Num 1)); ("undo", VNumber (Num 0))]).
  - vm_compute. reflexivity.
  - now left.
  - intros v' [H|[H|[]]]; inv H. reflexivity.
  - split; intros; discriminate.
Defined.

Lemma normalize_is_idempotent_witness :
  normalize default_config Games.plain
    [("next", VNumber (Num 1)); ("_resign", VNumber (Num 1))]
  = inr [("next", VNumber (Num 1)); ("_resign", VNumber (Num 1))].
Proof.
  apply (normalize_is_idempotent default_config Games.plain
           [("next", VNumber (Num 1)); ("undo", VNumber (Num 0))]).
  vm_compute. reflexivity.
Defined.

Lemma missing_actions_stop_the_run_witness :
  exists r,
    fuzz default_config ByteProvider.provider MoreGames.without_actions lowest (zeros 32)
    = Some r /\
    outcome r = Throw (NoMoreActionsError "No actions defined").
Proof.
  edestruct (missing_actions_stop_the_run default_config ByteProvider.provider
               MoreGames.without_actions lowest (zeros 32)) with (n := 0%nat)
    as (r & active & Hr & Ho & _).
  - exact byte_provider_ok.
  - discriminate.
  - vm_compute. reflexivity.
  - reflexivity.
  - right. vm_compute. discriminate.
  - vm_compute. discriminate.
  - reflexivity.
  - reflexivity.
  - exists r. auto.
Defined.

Lemma finished_game_returns_witness :
  exists r,
    fuzz default_config ByteProvider.provider Games.plain lowest (zeros 32) = Some r /\
    outcome r = Return VUndefined /\ run_step r = 3.
Proof.
  edestruct (finished_game_returns default_config ByteProvider.provider
               Games.plain lowest (zeros 32)) with (n := 3%nat)
    as (r & Hr & Ho & Hs & _).
  - exact byte_provider_ok.
  - discriminate.
  - vm_compute. reflexivity.
  - vm_compute. reflexivity.
  - vm_compute. discriminate.
  - vm_compute. discriminate.
  - reflexivity.
  - exists r. auto.
Defined.

Lemma invalid_argument_means_a_named_key_witness :
  exists r tr available chosen props key,
    fuzz default_config ByteProvider.provider MoreGames.named_pool lowest (zeros 32)
    = Some r /\
    run_trace r = tr ++ [PickedAction available chosen] /\
    prop (VObject available) (ToString chosen) = VObject props /\
    In key (keys props) /\ isNaN_string key = true.
Proof.
  eexists.
  edestruct (invalid_argument_means_a_named_key default_config ByteProvider.provider
               MoreGames.named_pool lowest (zeros 32))
    as (tr & available & chosen & props & key & H).
  - vm_compute. reflexivity.
  - vm_compute. reflexivity.
  - exists tr, available, chosen, props, key. split; [reflexivity|exact H].
Defined.

Lemma resign_needs_the_operation_witness :
  exists r,
    fuzz default_config ByteProvider.provider MoreGames.offers_resign lowest (zeros 32)
    = Some r /\
    ~ In (Accepted (VString "_resign") VNull) (run_trace r).
Proof.
  eexists. split; [vm_compute; reflexivity|].
  apply (resign_needs_the_operation default_config ByteProvider.provider
           MoreGames.offers_resign lowest (zeros 32)).
  - reflexivity.
  - vm_compute. reflexivity.
Defined.

Lemma hook_is_called_once_a_turn_witness :
  exists r,
    fuzz default_config ByteProvider.provider MoreGames.hooked lowest (zeros 32) = Some r /\
    Z.of_nat (List.length (fuzz_log_calls (run_world r))) = run_step r /\
    run_step r = 2.
Proof.
  eexists. split; [vm_compute; reflexivity|]. split; [|reflexivity].
  refine (proj1 (proj2 (proj2 (hook_is_called_once_a_turn default_config
                                 ByteProvider.provider MoreGames.hooked lowest
                                 (zeros 32) _ _) eq_refl)) _).
  - vm_compute. reflexivity.
  - intros [[e He] _]. destruct e as [| |[]]; discriminate He.
Defined.

Lemma pick_returns_an_element_witness :
  exists v data',
    pick default_config ByteProvider.provider lowest
      (Build_Data ByteProvider.provider (zeros 4) 0)
      (VArray [VString "Red"; VString "Blue"]) = inr (v, data') /\
    In v [VString "Red"; VString "Blue"].
Proof.
  destruct (proj1 (pick_returns_an_element default_config ByteProvider.provider
                     lowest (Build_Data ByteProvider.provider (zeros 4) 0)
                     [VString "Red"; VString "Blue"] byte_provider_ok lowest_ok)
              ltac:(discriminate))
    as (v & data' & Hp & Hin & _).
  exists v, data'. auto.
Defined.

Lemma loaded_module_is_configured_witness :
  MAX_STEPS {| MAX_STEPS := 2048; NO_UNDO := false; NO_RESIGN := false; RND := true |}
  <> 0.
Proof.
  refine (proj1 (proj2 (proj2
    (loaded_module_is_configured
       (env_of [("MAX_STEPS", "0"); ("RND", "true")]) (fun _ => true)
       _ "rules.js" _ _)))).
  vm_compute. reflexivity.
Defined.

Lemma MAX_STEPS_is_read_back_witness :
  MAX_STEPS (loaded_config (env_of [("MAX_STEPS", "100")])) = 100.
Proof.
  apply (MAX_STEPS_is_read_back (env_of [("MAX_STEPS", "100")]) 100);
    [lia|cbn; lia|reflexivity].
Defined.

Lemma unset_MAX_STEPS_bounds_the_run_witness :
  exists r,
    fuzz (loaded_config (env_of [])) ByteProvider.provider Games.plain lowest (zeros 32)
    = Some r /\
    0 <= run_step r <= 2049.
Proof.
  eexists. split; [vm_compute; reflexivity|].
  refine (proj2 (unset_MAX_STEPS_bounds_the_run (env_of []) ByteProvider.provider
                   Games.plain lowest (zeros 32) _ _ _)).
  - reflexivity.
  - vm_compute. reflexivity.
Defined.
